(** * react2: a shallow embedding of src/react.js

    The library is a classic (non-strict) browser script.  Its values are
    JavaScript values, its vnodes are ordinary objects and arrays that the
    library itself mutates (the [__ref] and [ref] expandos), and its
    rendering target is the DOM.  The embedding therefore carries

    - a heap of objects addressed by location, so that two references to one
      vnode see each other's writes;
    - the DOM nodes as heap objects of their own kind, together with the list
      of calls made on the rendering target, oldest first;
    - a result type with the engine's exceptions, and fuel for the three
      recursive walks, which need not terminate on cyclic input.

    Modelling conventions, each stated where it is used:
    - numbers are the integers (no NaN, no fractions);
    - property keys are not array indices, so that the enumeration order of
      an object is its insertion order;
    - application functions (components and late-bound vnodes) read the heap
      and allocate, and do nothing else: the specification's "pure function
      from resolved props to a vnode";
    - locations are not observable, so the order of two allocations is not
      modelled, and a temporary array or object that never escapes is
      allocated only where the code goes on to read it as an object. *)

From stdpp Require Import base list strings.
From Stdlib Require Import ZArith DecimalString DecimalNat Ascii Lia.

Open Scope string_scope.
Open Scope list_scope.

(** ** Values and objects *)

Definition loc := nat.
Definition fid := nat.

Inductive value : Type :=
| VUndefined
| VNull
| VBool (b : bool)
| VNum (n : Z)
| VStr (s : string)
| VRef (l : loc).

#[global] Instance value_eq_dec : EqDecision value.
Proof. solve_decision. Defined.

(** Own enumerable properties, in enumeration order. *)
Definition props := list (string * value).

Fixpoint assoc_get (k : string) (ps : props) : option value :=
  match ps with
  | [] => None
  | (k', v) :: ps => if String.eqb k k' then Some v else assoc_get k ps
  end.

(** Assignment to a property: an existing key keeps its place, a new key goes
    last. *)
Fixpoint assoc_set (k : string) (v : value) (ps : props) : props :=
  match ps with
  | [] => [(k, v)]
  | (k', v') :: ps =>
      if String.eqb k k' then (k', v) :: ps else (k', v') :: assoc_set k v ps
  end.

Definition has_key (k : string) (ps : props) : bool :=
  match assoc_get k ps with Some _ => true | None => false end.

(** [{...a, ...b}]: the properties of [b] are assigned onto [a] in order. *)
Definition merge (a b : props) : props :=
  fold_left (fun acc kv => assoc_set kv.1 kv.2 acc) b a.

Inductive node_kind :=
| NElement (tag : string)
| NText (data : string)
| NComment (data : string)
| NFragment.

Record dom_node := DomNode {
  kind : node_kind;
  attributes : props;
  listeners : list (string * value);
  childNodes : list loc }.

Inductive hobj :=
| HObject (own : props)
| HArray (elems : list value) (own : props)
| HFunction (code : fid) (name source : string) (own : props)
| HNode (n : dom_node) (own : props).

(** Calls made on the rendering target. *)
Inductive dom_op :=
| OpCreateElement (tag : string) (n : loc)
| OpCreateTextNode (data : string) (n : loc)
| OpCreateComment (data : string) (n : loc)
| OpCreateFragment (n : loc)
| OpSetAttribute (el : loc) (key : string) (v : value)
| OpRemoveAttribute (el : loc) (key : string)
| OpAddEventListener (el : loc) (type : string) (cb : value)
| OpRemoveEventListener (el : loc) (type : string) (cb : value)
| OpAppendChild (parent child : loc)
| OpClearChildren (el : loc).

Record state := State {
  heap : list hobj;
  window : props;
  console : list value;
  ops : list dom_op }.

Definition with_heap (h : list hobj) (s : state) : state :=
  State h (window s) (console s) (ops s).

Definition add_op (o : dom_op) (s : state) : state :=
  State (heap s) (window s) (console s) (ops s ++ [o]).

(** ** Results *)

Inductive exn :=
| TypeError_read_of (base : value) (prop : string)
| TypeError_set_on (base : value) (prop : string)
| TypeError_not_a_function (callee : string)
| TypeError_argument (callee : string)
| ReferenceError (name : string)
| HierarchyRequestError
| Thrown (v : value).

Inductive outcome (A : Type) :=
| Ok (a : A)
| Throw (e : exn)
| Diverge.
Arguments Ok {A} a.
Arguments Throw {A} e.
Arguments Diverge {A}.

Definition M (A : Type) := state -> outcome A * state.

Definition ret {A} (a : A) : M A := fun s => (Ok a, s).
Definition throw {A} (e : exn) : M A := fun s => (Throw e, s).
Definition diverge {A} : M A := fun s => (Diverge, s).

Definition bind {A B} (m : M A) (k : A -> M B) : M B :=
  fun s =>
    match m s with
    | (Ok a, s') => k a s'
    | (Throw e, s') => (Throw e, s')
    | (Diverge, s') => (Diverge, s')
    end.

Declare Scope js_scope.
Delimit Scope js_scope with js.
Notation "x <- m ;; k" := (bind m (fun x => k))
  (at level 100, m at next level, right associativity) : js_scope.
Notation "m ;;; k" := (bind m (fun _ => k))
  (at level 100, right associativity) : js_scope.
Open Scope js_scope.

Definition get_heap : M (list hobj) := fun s => (Ok (heap s), s).

(** [arr.forEach(f)] and [arr.map(f)] over the elements read at the call. *)
Fixpoint forEach {A} (f : A -> M unit) (xs : list A) : M unit :=
  match xs with
  | [] => ret tt
  | x :: xs => f x ;;; forEach f xs
  end.

Fixpoint mapM {A B} (f : A -> M B) (xs : list A) : M (list B) :=
  match xs with
  | [] => ret []
  | x :: xs => y <- f x ;; ys <- mapM f xs ;; ret (y :: ys)
  end.

(** ** The language's primitives *)

Definition truthy (v : value) : bool :=
  match v with
  | VUndefined | VNull => false
  | VBool b => b
  | VNum n => negb (Z.eqb n 0)
  | VStr s => negb (String.eqb s "")
  | VRef _ => true
  end.

Definition typeof (h : list hobj) (v : value) : string :=
  match v with
  | VUndefined => "undefined"
  | VNull => "object"
  | VBool _ => "boolean"
  | VNum _ => "number"
  | VStr _ => "string"
  | VRef l =>
      match h !! l with
      | Some (HFunction _ _ _ _) => "function"
      | _ => "object"
      end
  end.

Definition isArray (h : list hobj) (v : value) : bool :=
  match v with
  | VRef l => match h !! l with Some (HArray _ _) => true | _ => false end
  | _ => false
  end.

(** The elements of an array; of anything else, none. *)
Definition elems_of (h : list hobj) (v : value) : list value :=
  match v with
  | VRef l => match h !! l with Some (HArray es _) => es | _ => [] end
  | _ => []
  end.

Definition own_of (o : hobj) : props :=
  match o with
  | HObject own | HArray _ own | HFunction _ _ _ own | HNode _ own => own
  end.

Definition nat_str (n : nat) : string := NilZero.string_of_uint (Nat.to_uint n).
Definition num_str (n : Z) : string := NilZero.string_of_int (Z.to_int n).

(** An array index written as a property key. *)
Definition index_of_key (key : string) (len : nat) : option nat :=
  List.find (fun i => String.eqb key (nat_str i)) (seq 0 len).

Definition chars_of (s : string) : list value :=
  map (fun c => VStr (String c EmptyString)) (String.list_ascii_of_string s).

(** [base[key]] for a base that is neither undefined nor null: own
    properties, the elements and [length] of strings and arrays, and the
    [name] of functions.  Prototype methods are called, never read, by the library;
    they are the operations below. *)
Definition read (h : list hobj) (base : value) (key : string) : value :=
  match base with
  | VStr s =>
      if String.eqb key "length" then VNum (Z.of_nat (String.length s))
      else
        match index_of_key key (String.length s) with
        | Some i => default VUndefined (chars_of s !! i)
        | None => VUndefined
        end
  | VRef l =>
      match h !! l with
      | Some (HArray es own) =>
          if String.eqb key "length" then VNum (Z.of_nat (length es))
          else
            match index_of_key key (length es) with
            | Some i => default VUndefined (es !! i)
            | None => default VUndefined (assoc_get key own)
            end
      | Some (HFunction _ name _ own) =>
          if String.eqb key "name" then VStr name
          else default VUndefined (assoc_get key own)
      | Some o => default VUndefined (assoc_get key (own_of o))
      | None => VUndefined
      end
  | _ => VUndefined
  end.

Definition get (base : value) (key : string) : M value :=
  fun s =>
    match base with
    | VUndefined | VNull => (Throw (TypeError_read_of base key), s)
    | _ => (Ok (read (heap s) base key), s)
    end.

Definition set_own (o : hobj) (key : string) (v : value) : hobj :=
  match o with
  | HObject own => HObject (assoc_set key v own)
  | HArray es own => HArray es (assoc_set key v own)
  | HFunction c n src own => HFunction c n src (assoc_set key v own)
  | HNode n own => HNode n (assoc_set key v own)
  end.

(** [base[key] = v] for an expando key.  In a non-strict script the
    assignment to a property of a primitive is dropped; the demo pages rely
    on it when they render the child [false]. *)
Definition set (base : value) (key : string) (v : value) : M unit :=
  fun s =>
    match base with
    | VUndefined | VNull => (Throw (TypeError_set_on base key), s)
    | VRef l =>
        match heap s !! l with
        | Some o => (Ok tt, with_heap (<[l := set_own o key v]> (heap s)) s)
        | None => (Ok tt, s)
        end
    | _ => (Ok tt, s)
    end.

Definition alloc (o : hobj) : M value :=
  fun s => (Ok (VRef (length (heap s))), with_heap (heap s ++ [o]) s).

Definition indexed (vs : list value) : props :=
  map (fun iv => (nat_str iv.1, iv.2)) (combine (seq 0 (length vs)) vs).

(** The own enumerable properties that [{...v}] copies and [Object.keys(v)]
    lists. *)
Definition spread (h : list hobj) (v : value) : props :=
  match v with
  | VStr s => indexed (chars_of s)
  | VRef l =>
      match h !! l with
      | Some (HArray es own) => (indexed es ++ own)%list
      | Some o => own_of o
      | None => []
      end
  | _ => []
  end.

Definition keys_of (h : list hobj) (v : value) : list string :=
  map fst (spread h v).

(** [base.hasOwnProperty(key)]; the base is read first. *)
Definition hasOwnProperty (base : value) (key : string) : M bool :=
  fun s =>
    match base with
    | VUndefined | VNull => (Throw (TypeError_read_of base "hasOwnProperty"), s)
    | VStr str =>
        (Ok (String.eqb key "length" || has_key key (spread (heap s) base)), s)
    | VRef l =>
        match heap s !! l with
        | Some (HArray _ _) =>
            (Ok (String.eqb key "length" || has_key key (spread (heap s) base)), s)
        | Some (HFunction _ _ _ _) =>
            (Ok (String.eqb key "name" || String.eqb key "length"
                 || has_key key (spread (heap s) base)), s)
        | _ => (Ok (has_key key (spread (heap s) base)), s)
        end
    | _ => (Ok false, s)
    end.

(** String conversion, as template literals, [join] and the DOM apply it.
    Objects print with the default [toString]; the fuel bounds the nesting of
    arrays. *)
Fixpoint to_string_fuel (n : nat) (h : list hobj) (v : value) : string :=
  match v with
  | VUndefined => "undefined"
  | VNull => "null"
  | VBool true => "true"
  | VBool false => "false"
  | VNum z => num_str z
  | VStr s => s
  | VRef l =>
      match h !! l with
      | Some (HArray es _) =>
          match n with
          | O => ""
          | S n =>
              String.concat ","
                (map (fun e => match e with
                               | VUndefined | VNull => ""
                               | _ => to_string_fuel n h e
                               end) es)
          end
      | Some (HFunction _ _ src _) => src
      | Some (HObject _) => "[object Object]"
      | Some (HNode _ _) => "[object Node]"
      | None => "undefined"
      end
  end.

Definition to_string (h : list hobj) (v : value) : string :=
  to_string_fuel (S (length h)) h v.

(** [arr.join(sep)]: undefined and null members print as the empty string. *)
Definition join (h : list hobj) (sep : string) (vs : list value) : string :=
  String.concat sep
    (map (fun e => match e with
                   | VUndefined | VNull => ""
                   | _ => to_string h e
                   end) vs).

Definition lower_ascii (c : ascii) : ascii :=
  let n := nat_of_ascii c in
  if (65 <=? n)%nat && (n <=? 90)%nat then ascii_of_nat (n + 32) else c.

Fixpoint toLowerCase (s : string) : string :=
  match s with
  | EmptyString => EmptyString
  | String c s => String (lower_ascii c) (toLowerCase s)
  end.

(** ** The rendering target *)

Definition new_node (k : node_kind) : dom_node := DomNode k [] [] [].

Definition create_node (k : node_kind) (o : loc -> dom_op) : M value :=
  fun s =>
    let l := length (heap s) in
    (Ok (VRef l), add_op (o l) (with_heap (heap s ++ [HNode (new_node k) []]) s)).

Definition document_createElement (tag : string) : M value :=
  create_node (NElement tag) (OpCreateElement tag).
Definition document_createTextNode (data : string) : M value :=
  create_node (NText data) (OpCreateTextNode data).
Definition document_createComment (data : string) : M value :=
  create_node (NComment data) (OpCreateComment data).
Definition document_createDocumentFragment : M value :=
  create_node NFragment OpCreateFragment.

(** The receiver of a method call [el.meth(...)]: reading the method from
    undefined or null fails, and only DOM nodes carry the method. *)
Definition receiver (meth : string) (el : value) : M (loc * dom_node * props) :=
  fun s =>
    match el with
    | VUndefined | VNull => (Throw (TypeError_read_of el meth), s)
    | VRef l =>
        match heap s !! l with
        | Some (HNode n own) => (Ok (l, n, own), s)
        | _ => (Throw (TypeError_not_a_function meth), s)
        end
    | _ => (Throw (TypeError_not_a_function meth), s)
    end.

Definition put_node (l : loc) (n : dom_node) (own : props) (o : dom_op) : M unit :=
  fun s => (Ok tt, add_op o (with_heap (<[l := HNode n own]> (heap s)) s)).

Definition is_element (n : dom_node) : bool :=
  match kind n with NElement _ => true | _ => false end.

Definition same_listener (type : string) (cb : value) (e : string * value) : bool :=
  String.eqb type e.1 && bool_decide (cb = e.2).

(** The callback of a listener is an object or absent; any other argument is
    refused by the target. *)
Definition listener_arg (meth : string) (cb : value) : M unit :=
  match cb with
  | VUndefined | VNull | VRef _ => ret tt
  | _ => throw (TypeError_argument meth)
  end.

Definition addEventListener (el : value) (type : string) (cb : value) : M unit :=
  r <- receiver "addEventListener" el ;;
  let '(l, n, own) := r in
  listener_arg "addEventListener" cb ;;;
  let ls := listeners n in
  let ls' :=
    match cb with
    | VRef _ => if existsb (same_listener type cb) ls then ls else (ls ++ [(type, cb)])%list
    | _ => ls
    end in
  put_node l (DomNode (kind n) (attributes n) ls' (childNodes n)) own
    (OpAddEventListener l type cb).

Definition removeEventListener (el : value) (type : string) (cb : value) : M unit :=
  r <- receiver "removeEventListener" el ;;
  let '(l, n, own) := r in
  listener_arg "removeEventListener" cb ;;;
  let ls' := List.filter (fun e => negb (same_listener type cb e)) (listeners n) in
  put_node l (DomNode (kind n) (attributes n) ls' (childNodes n)) own
    (OpRemoveEventListener l type cb).

Definition setAttribute (el : value) (key : string) (v : value) : M unit :=
  r <- receiver "setAttribute" el ;;
  let '(l, n, own) := r in
  if is_element n then
    h <- get_heap ;;
    put_node l
      (DomNode (kind n) (assoc_set key (VStr (to_string h v)) (attributes n))
         (listeners n) (childNodes n)) own
      (OpSetAttribute l key v)
  else throw (TypeError_not_a_function "setAttribute").

Definition removeAttribute (el : value) (key : string) : M unit :=
  r <- receiver "removeAttribute" el ;;
  let '(l, n, own) := r in
  if is_element n then
    put_node l
      (DomNode (kind n)
         (List.filter (fun kv => negb (String.eqb key kv.1)) (attributes n))
         (listeners n) (childNodes n)) own
      (OpRemoveAttribute l key)
  else throw (TypeError_not_a_function "removeAttribute").

Definition set_children (cs : list loc) (o : hobj) : hobj :=
  match o with
  | HNode n own => HNode (DomNode (kind n) (attributes n) (listeners n) cs) own
  | _ => o
  end.

Definition children_of (o : hobj) : list loc :=
  match o with HNode n _ => childNodes n | _ => [] end.

(** A node has one parent: inserting it elsewhere removes it from where it
    was. *)
Definition detach (c : loc) (h : list hobj) : list hobj :=
  map (fun o => set_children (List.filter (fun x => negb (Nat.eqb x c)) (children_of o)) o) h.

Definition add_children (p : loc) (cs : list loc) (h : list hobj) : list hobj :=
  match h !! p with
  | Some o => <[p := set_children (children_of o ++ cs)%list o]> h
  | None => h
  end.

(** [parent.appendChild(child)] once receiver and argument are evaluated.  A
    document fragment hands over its children and is left empty.  The library
    only appends a node it has just built, so the target's check against
    cycles is not modelled. *)
Definition appendChild (parent child : value) : M unit :=
  r <- receiver "appendChild" parent ;;
  let '(p, n, _) := r in
  fun s =>
    match child with
    | VRef c =>
        match heap s !! c with
        | Some (HNode cn cown) =>
            match kind n with
            | NText _ | NComment _ => (Throw HierarchyRequestError, s)
            | _ =>
                let h :=
                  match kind cn with
                  | NFragment =>
                      add_children p (childNodes cn)
                        (<[c := set_children [] (HNode cn cown)]> (heap s))
                  | _ => add_children p [c] (detach c (heap s))
                  end in
                (Ok tt, add_op (OpAppendChild p c) (with_heap h s))
            end
        | _ => (Throw (TypeError_argument "appendChild"), s)
        end
    | _ => (Throw (TypeError_argument "appendChild"), s)
    end.

Definition newline : string := String (ascii_of_nat 10) EmptyString.
Definition dquote : string := String (ascii_of_nat 34) EmptyString.

(** [el.innerHTML = ""]: on an element the setter removes the children; on
    anything else the assignment creates an ordinary property. *)
Definition clear_innerHTML (el : value) : M unit :=
  fun s =>
    match el with
    | VRef l =>
        match heap s !! l with
        | Some (HNode n own) =>
            if is_element n then
              (Ok tt, add_op (OpClearChildren l)
                        (with_heap (<[l := set_children [] (HNode n own)]> (heap s)) s))
            else set el "innerHTML" (VStr "") s
        | _ => set el "innerHTML" (VStr "") s
        end
    | _ => set el "innerHTML" (VStr "") s
    end.

(** A free identifier resolves to a property of the global object. *)
Definition global (name : string) : M value :=
  fun s =>
    match assoc_get name (window s) with
    | Some v => (Ok v, s)
    | None => (Throw (ReferenceError name), s)
    end.

Definition set_global (name : string) (v : value) : M unit :=
  fun s => (Ok tt, State (heap s) (assoc_set name v (window s)) (console s) (ops s)).

Definition console_log (v : value) : M unit :=
  fun s => (Ok tt, State (heap s) (window s) (console s ++ [v]) (ops s)).

(** [arr.map] and [arr.forEach] exist on arrays only. *)
Definition array_receiver (meth : string) (v : value) : M (list value) :=
  fun s =>
    match v with
    | VUndefined | VNull => (Throw (TypeError_read_of v meth), s)
    | _ =>
        if isArray (heap s) v then (Ok (elems_of (heap s) v), s)
        else (Throw (TypeError_not_a_function meth), s)
    end.

(** ** The library *)

Section Library.

(** The application's functions.  A call sees the arguments and the heap, and
    yields its result together with the objects it allocated, which are
    appended to the heap. *)
Variable app : fid -> list value -> list hobj -> outcome value * list hobj.

Definition call (callee : string) (f : value) (args : list value) : M value :=
  fun s =>
    match f with
    | VRef l =>
        match heap s !! l with
        | Some (HFunction c _ _ _) =>
            let r := app c args (heap s) in
            (r.1, with_heap (heap s ++ r.2) s)
        | _ => (Throw (TypeError_not_a_function callee), s)
        end
    | _ => (Throw (TypeError_not_a_function callee), s)
    end.

(** *** vnode representation *)

(** [[].concat(...children)]: an array argument contributes its elements. *)
Definition concat_args (h : list hobj) (args : list value) : list value :=
  flat_map (fun a => if isArray h a then elems_of h a else [a]) args.

Definition createElement (type props : value) (children : list value) : M value :=
  let props := if bool_decide (props = VUndefined) then VNull else props in
  h <- get_heap ;;
  arr <- alloc (HArray (concat_args h children) []) ;;
  alloc (HObject [("type", type); ("props", props);
                  ("children", if truthy arr then arr else VNull)]).

Definition getComponentProps (vnode : value) : M value :=
  type <- get vnode "type" ;;
  dp <- get type "defaultProps" ;;
  h <- get_heap ;;
  let defaults := if truthy dp then spread h dp else [] in
  p <- get vnode "props" ;;
  let merged := merge defaults (spread h p) in
  c <- get vnode "children" ;;
  c <- (if truthy c then ret c
        else (g <- global "props" ;; get g "children")) ;;
  alloc (HObject (assoc_set "children" c merged)).

(** *** types *)

Definition isEmptyNode (h : list hobj) (vnode : value) : bool :=
  bool_decide (vnode = VNull) || bool_decide (vnode = VUndefined)
  || String.eqb (typeof h vnode) "boolean".

Definition isTextNode (h : list hobj) (vnode : value) : bool :=
  String.eqb (typeof h vnode) "string" || String.eqb (typeof h vnode) "number".

Definition isLiteralNode (h : list hobj) (vnode : value) : bool :=
  isTextNode h vnode || isEmptyNode h vnode.

(** [vnode && ...] yields [vnode] itself when it is falsy. *)
Definition isHtmlNode (h : list hobj) (vnode : value) : value :=
  if truthy vnode
  then VBool (String.eqb (typeof h (read h vnode "type")) "string")
  else vnode.

Definition isFragmentNode (h : list hobj) (vnode : value) : bool :=
  isArray h vnode.

Definition isFunctionalComponentNode (h : list hobj) (vnode : value) : value :=
  if truthy vnode
  then VBool (String.eqb (typeof h (read h vnode "type")) "function")
  else vnode.

Definition js_or (a b : value) : value := if truthy a then a else b.

Definition isValidElement (h : list hobj) (vnode : value) : value :=
  js_or (VBool (isEmptyNode h vnode))
    (js_or (VBool (isTextNode h vnode))
       (js_or (isHtmlNode h vnode)
          (js_or (VBool (isFragmentNode h vnode))
             (isFunctionalComponentNode h vnode)))).

(** *** helpers *)

(** The elements of [toArray(x)]; the array itself is a temporary. *)
Definition toArray (h : list hobj) (x : value) : list value :=
  if isArray h x then elems_of h x else if truthy x then [x] else [].

Definition isEventListener (key : string) : bool := String.prefix "on" key.

Definition getListenerName (key : string) : string :=
  toLowerCase (String.substring 2 (String.length key - 2) key).

Definition setElementProp (el : value) (key : string) (v : value) : M unit :=
  if isEventListener key
  then addEventListener el (getListenerName key) v
  else setAttribute el key v.

Definition removeElementProp (el : value) (key : string) (v : value) : M unit :=
  if isEventListener key
  then removeEventListener el (getListenerName key) v
  else removeAttribute el key.

Definition updateElementProps (el nextProps prevProps : value) : M unit :=
  (* remove old props *)
  prevProps <- (if truthy prevProps then ret prevProps else alloc (HObject [])) ;;
  h <- get_heap ;;
  forEach (fun key =>
      has <- hasOwnProperty nextProps key ;;
      if negb has then
        v <- get prevProps key ;;
        removeElementProp el key v
      else ret tt)
    (keys_of h prevProps) ;;;
  (* update new props *)
  nextProps <- (if truthy nextProps then ret nextProps else alloc (HObject [])) ;;
  h <- get_heap ;;
  forEach (fun key =>
      had <- hasOwnProperty prevProps key ;;
      old <- get prevProps key ;;
      new <- get nextProps key ;;
      if (negb had || bool_decide (old <> new))
         && negb (String.eqb key "key") && negb (String.eqb key "ref")
      then
        (if isEventListener key && had
         then removeElementProp el key old
         else ret tt) ;;;
        setElementProp el key new
      else ret tt)
    (keys_of h nextProps).

(** *** expandTree: (vnode) -> expanded vnode tree *)

Fixpoint expandTree (fuel : nat) (vnode : value) : M value :=
  match fuel with
  | O => diverge
  | S fuel =>
      h <- get_heap ;;
      vnode <- (if String.eqb (typeof h vnode) "function"
                then call "vnode" vnode []
                else ret vnode) ;;
      h <- get_heap ;;
      if isEmptyNode h vnode then ret vnode
      else if isTextNode h vnode then ret vnode
      else if isFragmentNode h vnode then
        out <- mapM (expandTree fuel) (elems_of h vnode) ;;
        alloc (HArray out [])
      else if truthy (isFunctionalComponentNode h vnode) then
        type <- get vnode "type" ;;
        p <- getComponentProps vnode ;;
        r <- call "vnode.type" type [p] ;;
        expandTree fuel r
      else
        let copy := spread h vnode in
        c <- get vnode "children" ;;
        out <- mapM (expandTree fuel) (toArray h c) ;;
        children <- alloc (HArray out []) ;;
        alloc (HObject (assoc_set "children" children copy))
  end.

(** *** renderElement: (vnode) -> expands vnode and returns an HTMLElement tree *)

Definition backRef (el vnode : value) : M value :=
  set el "__vnode" vnode ;;;
  set vnode "__ref" el ;;;
  ret el.

(** [target.appendChild(arg)]: the method is read from the target before the
    argument is evaluated. *)
Definition call_appendChild (target : value) (arg : M value) : M unit :=
  match target with
  | VUndefined | VNull => throw (TypeError_read_of target "appendChild")
  | _ => c <- arg ;; appendChild target c
  end.

Fixpoint renderElement (fuel : nat) (vnode : value) : M value :=
  match fuel with
  | O => diverge
  | S fuel =>
      h <- get_heap ;;
      vnode <- (if String.eqb (typeof h vnode) "function"
                then call "vnode" vnode []
                else ret vnode) ;;
      h <- get_heap ;;
      (* null and booleans are just comments *)
      if isEmptyNode h vnode then
        el <- document_createComment ("(" +:+ to_string h vnode +:+ ")") ;;
        backRef el vnode
      (* strings just convert to #text nodes *)
      else if isTextNode h vnode then
        el <- document_createTextNode (to_string h vnode) ;;
        backRef el vnode
      (* fragments are not real elements in the dom *)
      else if isFragmentNode h vnode then
        fragment <- document_createDocumentFragment ;;
        forEach (fun e => call_appendChild fragment (renderElement fuel e))
          (elems_of h vnode) ;;;
        set vnode "ref" fragment ;;;
        backRef fragment vnode
      else if truthy (isFunctionalComponentNode h vnode) then
        type <- get vnode "type" ;;
        p <- getComponentProps vnode ;;
        r <- call "vnode.type" type [p] ;;
        renderElement fuel r
      else
        (* create a DOM element with the nodeName of our VDOM element *)
        type <- get vnode "type" ;;
        created <- document_createElement (to_string h type) ;;
        el <- backRef created vnode ;;
        (* copy attributes onto the new node *)
        p <- get vnode "props" ;;
        updateElementProps el p VUndefined ;;;
        (* render children *)
        c <- get vnode "children" ;;
        h <- get_heap ;;
        forEach (fun child => call_appendChild el (renderElement fuel child))
          (toArray h c) ;;;
        ret el
  end.

(** *** render: renders vnode into the DOM container *)

Definition render (fuel : nat) (vnode container : value) : M unit :=
  clear_innerHTML container ;;;
  target <- backRef container vnode ;;
  call_appendChild target (renderElement fuel vnode).

(** *** renderString: (vnode) -> expands vnode and returns an html string *)

(** The function object that the binding [renderString] holds. *)
Variable renderString_fn : value.

Fixpoint renderString (fuel : nat) (vnode : value) : M value :=
  match fuel with
  | O => diverge
  | S fuel =>
      h <- get_heap ;;
      vnode <- (if String.eqb (typeof h vnode) "function"
                then call "vnode" vnode []
                else ret vnode) ;;
      h <- get_heap ;;
      if isEmptyNode h vnode then ret (VStr "")
      else if isTextNode h vnode then ret vnode
      else if isFragmentNode h vnode then
        (* [render] has no return statement *)
        out <- mapM (fun e => render fuel e renderString_fn ;;; ret VUndefined)
                 (elems_of h vnode) ;;
        h <- get_heap ;;
        ret (VStr (join h newline out))
      else if truthy (isFunctionalComponentNode h vnode) then
        type <- get vnode "type" ;;
        p <- getComponentProps vnode ;;
        r <- call "vnode.type" type [p] ;;
        renderString fuel r
      else
        p <- get vnode "props" ;;
        let keys := List.filter (fun key => negb (isEventListener key)) (keys_of h p) in
        attrs <- mapM (fun key =>
                   p <- get vnode "props" ;;
                   v <- get p key ;;
                   h <- get_heap ;;
                   ret (VStr (key +:+ "=" +:+ dquote +:+ to_string h v +:+ dquote)))
                 keys ;;
        let props := join h " " attrs in
        c <- get vnode "children" ;;
        cs <- array_receiver "map" c ;;
        out <- mapM (renderString fuel) cs ;;
        h <- get_heap ;;
        let children := join h newline out in
        type <- get vnode "type" ;;
        let tag := to_string h type in
        if negb (String.eqb props "")
        then ret (VStr ("<" +:+ tag +:+ " " +:+ props +:+ ">" +:+ children +:+ "</" +:+ tag +:+ ">"))
        else ret (VStr ("<" +:+ tag +:+ ">" +:+ children +:+ "</" +:+ tag +:+ ">"))
  end.

(** *** update: updates a rendered DOM node *)

Definition computeKey (h : list hobj) (vnode : value) (i : nat) : value :=
  let p := if truthy vnode then read h vnode "props" else vnode in
  let k := if truthy p then read h p "key" else p in
  if truthy k then k
  else
    let t := if truthy vnode then read h vnode "type" else vnode in
    let key := if truthy t then js_or (read h t "name") t
               else VStr (typeof h vnode) in
    VStr ("__react__." +:+ to_string h key +:+ "-" +:+ nat_str i).

(** [node.childNodes[0]] *)
Definition first_child (node : value) : M value :=
  fun s =>
    match node with
    | VUndefined | VNull => (Throw (TypeError_read_of node "childNodes"), s)
    | VRef l =>
        match heap s !! l with
        | Some (HNode n _) =>
            (Ok (match childNodes n with c :: _ => VRef c | [] => VUndefined end), s)
        | _ => get (read (heap s) node "childNodes") "0" s
        end
    | _ => get (read (heap s) node "childNodes") "0" s
    end.

(** The statements of [update] before its special cases.  They yield the
    element being patched and the two lists of children. *)
Definition update_root (fuel : nat) (node : value) : M (value * value * value) :=
  first <- first_child node ;;
  prevTree <- get first "__vnode" ;;
  v <- get node "__vnode" ;;
  nextTree <- expandTree fuel v ;;
  (* debug *)
  shown <- alloc (HObject [("prevTree", prevTree); ("nextTree", nextTree)]) ;;
  console_log shown ;;;
  set_global "prevTree" prevTree ;;;
  set_global "nextTree" nextTree ;;;
  el <- get prevTree "__ref" ;;
  np <- get nextTree "props" ;;
  pp <- get prevTree "props" ;;
  updateElementProps el np pp ;;;
  prevChildren <- get prevTree "children" ;;
  nextChildren <- get nextTree "children" ;;
  ret (el, prevChildren, nextChildren).

(** [a.length <op> b.length] with [&&]: the right operand is read only when
    the left one holds. *)
Definition lengths (wantPrev wantNext : bool) (prevChildren nextChildren : value) : M bool :=
  pl <- get prevChildren "length" ;;
  if Bool.eqb (truthy pl) wantPrev then
    nl <- get nextChildren "length" ;;
    ret (Bool.eqb (truthy nl) wantNext)
  else ret false.

Definition update (fuel : nat) (node : value) : M unit :=
  r <- update_root fuel node ;;
  let '(el, prevChildren, nextChildren) := r in
  (* Special cases *)
  both_empty <- lengths false false prevChildren nextChildren ;;
  if both_empty then ret tt
  else
    emptied <- lengths true false prevChildren nextChildren ;;
    if emptied then clear_innerHTML el
    else
      filled <- lengths false true prevChildren nextChildren ;;
      if filled then
        cs <- array_receiver "forEach" nextChildren ;;
        forEach (fun child => call_appendChild el (renderElement fuel child)) cs
      else ret tt.

End Library.

(** ** The remaining functions of the library *)

(** [Object.keys(v)] refuses undefined and null. *)
Definition object_keys (v : value) : M (list string) :=
  fun s =>
    match v with
    | VUndefined | VNull => (Throw (TypeError_argument "Object.keys"), s)
    | _ => (Ok (keys_of (heap s) v), s)
    end.

(** [bindListeners(el, listeners)] with the default [options]: the listeners
    are added under their keys as they are, and the function that is returned
    removes them; it is the computation that the caller may run later. *)
Definition bindListeners (el listeners : value) : M (M unit) :=
  listeners <- (if bool_decide (listeners = VUndefined)
                then alloc (HObject [])
                else ret listeners) ;;
  keys <- object_keys listeners ;;
  forEach (fun key =>
      v <- get listeners key ;;
      addEventListener el key v) keys ;;;
  ret (keys <- object_keys listeners ;;
       forEach (fun key =>
           v <- get listeners key ;;
           removeEventListener el key v) keys).

(** [memo[key] = child] for every child, on an object that starts empty; a
    value used as a property key is converted to a string. *)
Definition computeChildKeyMap (arr : value) : M value :=
  match arr with
  | VUndefined | VNull => throw (TypeError_read_of arr "reduce")
  | _ =>
      memo <- alloc (HObject []) ;;
      children <- array_receiver "reduce" arr ;;
      forEach (fun ic =>
          h <- get_heap ;;
          set memo (to_string h (computeKey h ic.2 ic.1)) ic.2)
        (combine (seq 0 (length children)) children) ;;;
      ret memo
  end.

(** A loop that returns false at the first member that fails the test. *)
Fixpoint every {A} (f : A -> M bool) (xs : list A) : M bool :=
  match xs with
  | [] => ret true
  | x :: xs => b <- f x ;; if b then every f xs else ret false
  end.

(** [Object.is] is identity of values; the integers have neither NaN nor a
    negative zero. *)
Definition shallowEqual (objA objB : value) : M bool :=
  if bool_decide (objA = objB) then ret true
  else
    h <- get_heap ;;
    if negb (String.eqb (typeof h objA) "object") || bool_decide (objA = VNull)
       || negb (String.eqb (typeof h objB) "object") || bool_decide (objB = VNull)
    then ret false
    else
      let keysA := keys_of h objA in
      let keysB := keys_of h objB in
      if negb (Nat.eqb (length keysA) (length keysB)) then ret false
      else
        (* Test for A's keys different from B. *)
        every (fun key =>
            has <- hasOwnProperty objB key ;;
            if negb has then ret false
            else
              a <- get objA key ;;
              b <- get objB key ;;
              ret (bool_decide (a = b)))
          keysA.

Definition shouldNodeUpdate (nextVNode prevVNode : value) : M bool :=
  h <- get_heap ;;
  if isLiteralNode h prevVNode then ret (bool_decide (prevVNode <> nextVNode))
  else
    nextType <- get nextVNode "type" ;;
    prevType <- get prevVNode "type" ;;
    if bool_decide (nextType <> prevType) then ret true
    else
      nextProps <- get nextVNode "props" ;;
      prevProps <- get prevVNode "props" ;;
      sameProps <- shallowEqual nextProps prevProps ;;
      if negb sameProps then ret true
      else
        nextChildren <- get nextVNode "children" ;;
        prevChildren <- get prevVNode "children" ;;
        sameChildren <- shallowEqual nextChildren prevChildren ;;
        ret (negb sameChildren).

(** ** Vocabulary of the statements *)

(** The five kind predicates of the classifier, in the order they are
    tried, as truth values. *)
Definition kinds (h : list hobj) (v : value) : list bool :=
  [ isEmptyNode h v;
    isTextNode h v;
    truthy (isHtmlNode h v);
    isFragmentNode h v;
    truthy (isFunctionalComponentNode h v) ].

Definition literals : list value :=
  [VNull; VUndefined; VBool true; VBool false; VNum 0; VStr ""; VStr "x"].

Definition with_listeners (ls : list (string * value)) (n : dom_node) : dom_node :=
  DomNode (kind n) (attributes n) ls (childNodes n).


(** An application without functions of its own. *)
Definition app_none : fid -> list value -> list hobj -> outcome value * list hobj :=
  fun _ _ _ => (Ok VUndefined, []).

(** The second state is the first with newly allocated objects and nothing
    else changed: no object that existed is touched, no call is made on the
    rendering target, nothing is logged or assigned to a global. *)
Definition extends (s s' : state) : Prop :=
  exists ext, s' = with_heap (heap s ++ ext) s.

Definition frames {A} (m : M A) : Prop := forall s, extends s (m s).2.

(** A vnode tree of depth at most [n] made of Empty, Text, Fragment and
    Element nodes only. *)
Fixpoint plain (n : nat) (h : list hobj) (v : value) : bool :=
  isEmptyNode h v || isTextNode h v ||
  match n, v with
  | S n, VRef l =>
      match h !! l with
      | Some (HArray es _) => forallb (plain n h) es
      | Some (HObject own) =>
          String.eqb (typeof h (read h v "type")) "string"
          && forallb (plain n h) (toArray h (read h v "children"))
      | _ => false
      end
  | _, _ => false
  end.

(** The same, in the shape expandTree returns: fragments are fresh arrays
    and every element holds its children in a fresh array. *)
Fixpoint expanded (n : nat) (h : list hobj) (v : value) : bool :=
  isEmptyNode h v || isTextNode h v ||
  match n, v with
  | S n, VRef l =>
      match h !! l with
      | Some (HArray es []) => forallb (expanded n h) es
      | Some (HObject own) =>
          String.eqb (typeof h (read h v "type")) "string"
          && match read h v "children" with
             | VRef a =>
                 match h !! a with
                 | Some (HArray es []) => forallb (expanded n h) es
                 | _ => false
                 end
             | _ => false
             end
      | _ => false
      end
  | _, _ => false
  end.

(** Structural equality of two vnodes in one heap: identical values; or
    arrays with the same expandos and pairwise equal members; or objects with
    the same keys in the same order whose values are identical or, under the
    key children, equal arrays. *)
Definition expandos (h : list hobj) (v : value) : props :=
  match v with
  | VRef a => match h !! a with Some o => own_of o | None => [] end
  | _ => []
  end.

Definition fields_of (h : list hobj) (v : value) : option props :=
  match v with
  | VRef a => match h !! a with Some (HObject ps) => Some ps | _ => None end
  | _ => None
  end.

Definition same_array (R : value -> value -> Prop) (h : list hobj) (v w : value) : Prop :=
  isArray h v = true /\ isArray h w = true
  /\ expandos h v = expandos h w
  /\ Forall2 R (elems_of h v) (elems_of h w).

Fixpoint same (n : nat) (h : list hobj) (v w : value) : Prop :=
  v = w \/
  match n with
  | O => False
  | S n =>
      same_array (same n h) h v w
      \/ exists ps qs,
           fields_of h v = Some ps /\ fields_of h w = Some qs
           /\ Forall2 (fun p q =>
                         p.1 = q.1
                         /\ (p.2 = q.2
                             \/ (p.1 = "children"
                                 /\ same_array (same n h) h p.2 q.2)))
                ps qs
  end.

(** A value that is not a dangling reference. *)
Definition valid (h : list hobj) (v : value) : Prop :=
  match v with VRef l => is_Some (h !! l) | _ => True end.

(** Applications and states that the examples run on. *)

(** A component that throws. *)
Definition app_throws : fid -> list value -> list hobj -> outcome value * list hobj :=
  fun _ _ _ => (Throw (Thrown (VStr "boom")), []).


(** A container (3) into which the component vnode (2) was rendered as an
    empty ul element (4, from the vnode 5). *)
Definition rendered_empty_list : state :=
  State
    [ HFunction 0 "App" "App" [];
      HArray [] [];
      HObject [("type", VRef 0); ("props", VNull); ("children", VRef 1);
               ("__ref", VRef 3)];
      HNode (DomNode (NElement "div") [] [] [4]) [("__vnode", VRef 2)];
      HNode (DomNode (NElement "ul") [] [] []) [("__vnode", VRef 5)];
      HObject [("type", VStr "ul"); ("props", VNull); ("children", VRef 6);
               ("__ref", VRef 4)];
      HArray [] [] ]
    [] [] [].

(** The function object of renderString (0) and the fragment ["a", "b"] (1). *)
Definition text_fragment : state :=
  State [ HFunction 0 "renderString" "renderString" [];
          HArray [VStr "a"; VStr "b"] [] ] [] [] [].

(** The element div (4) with the children "a", the fragment ["b", null] and
    a span whose only child, "c", is not wrapped in an array. *)
Definition plain_tree : state :=
  State [ HArray [VStr "b"; VNull] [];
          HObject [("type", VStr "span"); ("props", VNull); ("children", VStr "c")];
          HArray [VStr "a"; VRef 0; VRef 1] [];
          HObject [("id", VStr "x")];
          HObject [("type", VStr "div"); ("props", VRef 3); ("children", VRef 2)] ]
    [] [] [].

(** ** Vocabulary of the further properties *)




(** The value of a key in a list of properties, undefined when absent. *)
Definition look (k : string) (ps : props) : value :=
  default VUndefined (assoc_get k ps).

(** What a listener may be: an object, or nothing. *)
Definition handler (v : value) : bool :=
  match v with VBool _ | VNum _ | VStr _ => false | _ => true end.

Definition handlers (ps : props) : Prop :=
  Forall (fun kv => isEventListener kv.1 = true -> handler kv.2 = true) ps.

Definition prop_set_op (el : loc) (key : string) (v : value) : dom_op :=
  if isEventListener key then OpAddEventListener el (getListenerName key) v
  else OpSetAttribute el key v.

Definition prop_remove_op (el : loc) (key : string) (v : value) : dom_op :=
  if isEventListener key then OpRemoveEventListener el (getListenerName key) v
  else OpRemoveAttribute el key.

(** The calls of the first loop of updateElementProps: every key of the
    previous props that the next props lack is removed. *)
Definition removals (el : loc) (prev next : props) : list dom_op :=
  flat_map (fun k => if has_key k next then []
                     else [prop_remove_op el k (look k prev)])
    (map fst prev).

(** The calls of its second loop: every key of the next props, except key and
    ref, that is new or whose value is not identical is set, after the old
    listener is removed. *)
Definition updates (el : loc) (prev next : props) : list dom_op :=
  flat_map (fun k =>
      if (negb (has_key k prev) || bool_decide (look k prev <> look k next))
         && negb (String.eqb k "key") && negb (String.eqb k "ref")
      then (if isEventListener k && has_key k prev
            then [prop_remove_op el k (look k prev)] else [])
           ++ [prop_set_op el k (look k next)]
      else [])
    (map fst next).

(** The second state is the first with the element [el] patched and the
    calls [added] made on the target. *)
Definition patched (el : loc) (added : list dom_op) (s s' : state) : Prop :=
  exists n n' own,
    heap s !! el = Some (HNode n own)
    /\ is_element n' = true
    /\ s' = State (<[el := HNode n' own]> (heap s)) (window s) (console s)
              (ops s ++ added).

(** Two lists of own properties that differ at most in the back-reference
    expandos. *)
Definition same_but_refs (ps ps' : props) : Prop :=
  forall k, k <> "__ref" -> k <> "ref" -> assoc_get k ps' = assoc_get k ps.

(** What may have happened to an object that existed before location [N] was
    allocated: its own properties differ at most in the back-reference
    expandos; an array has its members, a function its code and name; a node
    has its kind, attributes and listeners, and its children are the old ones
    without, possibly, some that were not yet allocated. *)
Definition kept (N : nat) (o o' : hobj) : Prop :=
  same_but_refs (own_of o) (own_of o')
  /\ match o, o' with
     | HObject _, HObject _ => True
     | HArray es _, HArray es' _ => es' = es
     | HFunction c nm src _, HFunction c' nm' src' _ =>
         c' = c /\ nm' = nm /\ src' = src
     | HNode n _, HNode n' _ =>
         kind n' = kind n /\ attributes n' = attributes n
         /\ listeners n' = listeners n
         /\ exists keep : loc -> bool,
              (forall x, x < N -> keep x = true)
              /\ childNodes n' = List.filter keep (childNodes n)
     | _, _ => False
     end.

Definition keeps (N : nat) (s s' : state) : Prop :=
  length (heap s) <= length (heap s')
  /\ window s' = window s /\ console s' = console s
  /\ forall (l : loc) o, l < N -> heap s !! l = Some o ->
       exists o', heap s' !! l = Some o' /\ kept N o o'.

(** A reference to an object allocated at [N] or later. *)
Definition fresh (N : nat) (v : value) : Prop :=
  exists l : loc, v = VRef l /\ N <= l.

(** A computation that, started with at least [N] objects, keeps the first
    [N], and whose result satisfies [Q]. *)
Definition builds {A} (N : nat) (m : M A) (Q : A -> Prop) : Prop :=
  forall s, N <= length (heap s) ->
    keeps N s (m s).2 /\ forall a, (m s).1 = Ok a -> Q a.

(** A value that is not a reference to one of the first [N] objects. *)
Definition not_old (N : nat) (v : value) : Prop :=
  forall l : loc, v = VRef l -> N <= l.

(** The listener [e] is one of those that the object [ps] registers. *)
Definition bound (ps : props) (e : string * value) : bool :=
  existsb (fun kv => same_listener kv.1 kv.2 e) ps.

Definition add_listener (ls : list (string * value)) (kv : string * value) :=
  if existsb (same_listener kv.1 kv.2) ls then ls else ls ++ [kv].

Definition callbacks (ps : props) : Prop :=
  Forall (fun kv : string * value => exists c : loc, kv.2 = VRef c) ps.

(** One attribute of the markup, [key="value"]; the value is not escaped. *)
Definition attribute (h : list hobj) (kv : string * value) : string :=
  kv.1 +:+ "=" +:+ dquote +:+ to_string h kv.2 +:+ dquote.

(** The markup of a literal child. *)
Definition text_of (h : list hobj) (c : value) : string :=
  if isEmptyNode h c then "" else to_string h c.

Definition element_markup (tag attrs children : string) : string :=
  if negb (String.eqb attrs "")
  then "<" +:+ tag +:+ " " +:+ attrs +:+ ">" +:+ children +:+ "</" +:+ tag +:+ ">"
  else "<" +:+ tag +:+ ">" +:+ children +:+ "</" +:+ tag +:+ ">".

(** The key that computeKey gives to a child without a key and without a
    type: its position and the name of its primitive type. *)
Definition positional_key (h : list hobj) (ic : nat * value) : string :=
  "__react__." +:+ typeof h ic.2 +:+ "-" +:+ nat_str ic.1.



(** * Properties *)

(** ** The monad *)

Lemma bind_ok {A B} (m : M A) (k : A -> M B) s a s' :
  m s = (Ok a, s') -> bind m k s = k a s'.
Proof. intros H. unfold bind. now rewrite H. Qed.

Lemma bind_throw {A B} (m : M A) (k : A -> M B) s e s' :
  m s = (Throw e, s') -> bind m k s = (Throw e, s').
Proof. intros H. unfold bind. now rewrite H. Qed.

Lemma bind_diverge {A B} (m : M A) (k : A -> M B) s s' :
  m s = (Diverge, s') -> bind m k s = (Diverge, s').
Proof. intros H. unfold bind. now rewrite H. Qed.

Lemma bind_ret {A B} (a : A) (k : A -> M B) s : bind (ret a) k s = k a s.
Proof. reflexivity. Qed.

Lemma bind_get_heap {B} (k : list hobj -> M B) s : bind get_heap k s = k (heap s) s.
Proof. reflexivity. Qed.

Lemma bind_bind {A B C} (m : M A) (f : A -> M B) (g : B -> M C) s :
  bind (bind m f) g s = bind m (fun x => bind (f x) g) s.
Proof. unfold bind. destruct (m s) as [[a | e |] s']; reflexivity. Qed.

(** ** Classification *)

(** C3.  Each of null, undefined, true, false, 0, the empty string and "x"
    satisfies exactly one of the five kind predicates and is a valid element;
    0 and the empty string are Text, not Empty. *)
Theorem classification_of_literals (h : list hobj) :
  Forall (fun v => length (List.filter id (kinds h v)) = 1
                   /\ truthy (isValidElement h v) = true) literals
  /\ kinds h (VNum 0) = [false; true; false; false; false]
  /\ kinds h (VStr "") = [false; true; false; false; false].
Proof.
  split; [| split; reflexivity].
  unfold literals. repeat (constructor; [split; reflexivity |]). constructor.
Qed.

(** ** Property lists *)

Lemma assoc_get_set (k k' : string) (v : value) (ps : props) :
  assoc_get k (assoc_set k' v ps) =
  if String.eqb k k' then Some v else assoc_get k ps.
Proof.
  induction ps as [| [k0 v0] ps IH]; simpl.
  - destruct (String.eqb k k'); reflexivity.
  - destruct (String.eqb k' k0) eqn:E0; simpl.
    + apply String.eqb_eq in E0. subst k0.
      destruct (String.eqb k k'); reflexivity.
    + rewrite IH. destruct (String.eqb k k') eqn:E; [| reflexivity].
      apply String.eqb_eq in E. subst k'. now rewrite E0.
Qed.

Lemma assoc_get_not_in (k : string) (ps : props) :
  ~ In k (map fst ps) -> assoc_get k ps = None.
Proof.
  induction ps as [| [k0 v0] ps IH]; simpl; [reflexivity |].
  intros H. destruct (String.eqb k k0) eqn:E.
  - apply String.eqb_eq in E. subst. tauto.
  - apply IH. tauto.
Qed.

(** Later sources win: a key of [b] is read from [b], any other from [a]. *)
Lemma assoc_get_merge (k : string) (a b : props) :
  NoDup (map fst b) ->
  assoc_get k (merge a b) =
  match assoc_get k b with Some v => Some v | None => assoc_get k a end.
Proof.
  unfold merge. revert a.
  induction b as [| [k0 v0] b IH]; simpl; intros a Hnd; [reflexivity |].
  apply NoDup_cons in Hnd as [Hk0 Hnd].
  rewrite IH by assumption. rewrite assoc_get_set.
  destruct (String.eqb k k0) eqn:E.
  - apply String.eqb_eq in E. subst.
    rewrite assoc_get_not_in; [reflexivity |].
    intros Hin. apply Hk0. now apply list_elem_of_In.
  - reflexivity.
Qed.

Lemma lookup_alloc (h : list hobj) (o : hobj) : (h ++ [o]) !! length h = Some o.
Proof. now apply list_lookup_middle. Qed.

Lemma lookup_alloc_old (h ext : list hobj) (l : loc) (o : hobj) :
  h !! l = Some o -> (h ++ ext) !! l = Some o.
Proof. intros H. now apply lookup_app_l_Some. Qed.

(** ** createElement *)

(** C10.  Whatever the arguments, and also with no children argument at all,
    the vnode that createElement returns holds an array in its children
    field, never null: the array of the arguments flattened one level. *)
Theorem createElement_children_is_array
    (type props : value) (children : list value) (s : state) :
  let r := createElement type props children s in
  let r0 := createElement type props [] s in
  exists l a l0 a0,
    r.1 = Ok (VRef l)
    /\ read (heap r.2) (VRef l) "children" = VRef a
    /\ read (heap r.2) (VRef l) "children" <> VNull
    /\ heap r.2 !! a = Some (HArray (concat_args (heap s) children) [])
    /\ r0.1 = Ok (VRef l0)
    /\ read (heap r0.2) (VRef l0) "children" = VRef a0
    /\ heap r0.2 !! a0 = Some (HArray [] []).
Proof.
  intros r r0.
  exists (S (length (heap s))), (length (heap s)),
         (S (length (heap s))), (length (heap s)).
  assert (Hlen : forall o : hobj, length (heap s ++ [o]) = S (length (heap s))).
  { intros o. rewrite length_app. simpl. lia. }
  assert (Hr : forall cs,
    createElement type props cs s =
    (Ok (VRef (S (length (heap s)))),
     with_heap ((heap s ++ [HArray (concat_args (heap s) cs) []]) ++
                [HObject [("type", type);
                          ("props", if bool_decide (props = VUndefined)
                                    then VNull else props);
                          ("children", VRef (length (heap s)))]]) s)).
  { intros cs. unfold createElement, bind, get_heap, alloc. simpl.
    rewrite Hlen. reflexivity. }
  subst r r0. rewrite !Hr. simpl.
  assert (Hobj : forall cs o,
    ((heap s ++ [HArray cs []]) ++ [o]) !! S (length (heap s)) = Some o).
  { intros cs o. rewrite <- (Hlen (HArray cs [])). apply lookup_alloc. }
  assert (Harr : forall cs o,
    ((heap s ++ [HArray cs []]) ++ [o]) !! length (heap s) = Some (HArray cs [])).
  { intros cs o. apply lookup_alloc_old, lookup_alloc. }
  rewrite !Hobj, !Harr. simpl.
  repeat split; congruence.
Qed.

(** ** computeKey *)

(** C9, as the code has it.  The explicit key is returned when the vnode, its
    props and the key are all truthy.  Otherwise a vnode with a truthy type
    gets the reserved prefix, the type's name (or, when that is empty or
    absent, the type itself) and the index; anything else gets the reserved
    prefix, its typeof name and the index. *)
Theorem computeKey_cases (h : list hobj) (vnode : value) (i : nat) :
  let p := read h vnode "props" in
  let k := read h p "key" in
  let t := read h vnode "type" in
  let explicit := truthy vnode && truthy p && truthy k in
  (explicit = true -> computeKey h vnode i = k)
  /\ (explicit = false -> truthy vnode && truthy t = true ->
      computeKey h vnode i =
      VStr ("__react__." +:+ to_string h (js_or (read h t "name") t)
            +:+ "-" +:+ nat_str i))
  /\ (explicit = false -> truthy vnode && truthy t = false ->
      computeKey h vnode i =
      VStr ("__react__." +:+ typeof h vnode +:+ "-" +:+ nat_str i)).
Proof.
  intros p k t explicit. subst explicit p k t. unfold computeKey.
  destruct (truthy vnode) eqn:Ev;
    destruct (truthy (read h vnode "props")) eqn:Ep;
    destruct (truthy (read h (read h vnode "props") "key")) eqn:Ek;
    destruct (truthy (read h vnode "type")) eqn:Et;
    simpl; rewrite ?Ev, ?Ep, ?Ek, ?Et; simpl;
    repeat split; intros; try discriminate; reflexivity.
Qed.

Lemma computeKey_cases_witness :
  computeKey [HObject [("type", VStr "li"); ("props", VRef 1)];
              HObject [("key", VStr "a")]] (VRef 0) 2 = VStr "a"
  /\ computeKey [HObject [("type", VStr "li"); ("props", VNull)]] (VRef 0) 2
     = VStr "__react__.li-2"
  /\ computeKey [] (VStr "x") 3 = VStr "__react__.string-3".
Proof.
  split; [| split].
  - apply (proj1 (computeKey_cases
                    [HObject [("type", VStr "li"); ("props", VRef 1)];
                     HObject [("key", VStr "a")]] (VRef 0) 2)).
    reflexivity.
  - apply (proj1 (proj2 (computeKey_cases
                    [HObject [("type", VStr "li"); ("props", VNull)]]
                    (VRef 0) 2))); reflexivity.
  - apply (proj2 (proj2 (computeKey_cases [] (VStr "x") 3))); reflexivity.
Defined.

(** C9 as stated fails: a key that is present in the props but falsy, such as
    the number 0, is not returned. *)
Lemma computeKey_present_key_not_returned :
  let h := [HObject [("type", VStr "li"); ("props", VRef 1)];
            HObject [("key", VNum 0)]] in
  has_key "key" (spread h (read h (VRef 0) "props")) = true
  /\ read h (read h (VRef 0) "props") "key" = VNum 0
  /\ computeKey h (VRef 0) 2 = VStr "__react__.li-2"
  /\ computeKey h (VRef 0) 2 <> read h (read h (VRef 0) "props") "key".
Proof. repeat split; discriminate. Qed.

(** ** getComponentProps *)

(** C5, as the code has it.  For a Component vnode whose children field is
    truthy (every array is, the empty one too), the resolved props are a new
    object in which the children entry is the vnode's own children, any other
    key of the vnode's props has the props' value, and any remaining key has
    the value of the function's defaultProps, if it carries any.  (The keys
    of the props are distinct, as the keys of an object are.) *)
Theorem getComponentProps_merge (s : state) (vnode : value) :
  let h := heap s in
  let dp := read h (read h vnode "type") "defaultProps" in
  let defaults := if truthy dp then spread h dp else [] in
  let own := spread h (read h vnode "props") in
  let c := read h vnode "children" in
  isFunctionalComponentNode h vnode = VBool true ->
  NoDup (map fst own) ->
  truthy c = true ->
  exists r fields,
    getComponentProps vnode s = (Ok (VRef r), with_heap (h ++ [HObject fields]) s)
    /\ (h ++ [HObject fields]) !! r = Some (HObject fields)
    /\ forall key,
         assoc_get key fields =
         if String.eqb key "children" then Some c
         else match assoc_get key own with
              | Some v => Some v
              | None => assoc_get key defaults
              end.
Proof.
  intros h dp defaults own c Hcomp Hnd Hc.
  exists (length h), (assoc_set "children" c (merge defaults own)).
  assert (Hv : truthy vnode = true).
  { unfold isFunctionalComponentNode in Hcomp.
    destruct (truthy vnode) eqn:E; [reflexivity |].
    rewrite Hcomp in E. discriminate. }
  assert (Ht : String.eqb (typeof h (read h vnode "type")) "function" = true).
  { unfold isFunctionalComponentNode in Hcomp. rewrite Hv in Hcomp. congruence. }
  assert (Hgv : forall key s', heap s' = h ->
             get vnode key s' = (Ok (read h vnode key), s')).
  { intros key s' <-. destruct vnode; try discriminate; reflexivity. }
  assert (Hgt : get (read h vnode "type") "defaultProps" s = (Ok dp, s)).
  { subst dp. destruct (read h vnode "type"); try discriminate; reflexivity. }
  split; [| split].
  - unfold getComponentProps.
    rewrite (bind_ok _ _ _ _ _ (Hgv "type" s eq_refl)).
    rewrite (bind_ok _ _ _ _ _ Hgt).
    unfold get_heap at 1. unfold bind at 1.
    rewrite (bind_ok _ _ _ _ _ (Hgv "props" s eq_refl)).
    rewrite (bind_ok _ _ _ _ _ (Hgv "children" s eq_refl)).
    fold h c. rewrite Hc. reflexivity.
  - apply lookup_alloc.
  - intros key. rewrite assoc_get_set.
    destruct (String.eqb key "children"); [reflexivity |].
    now apply assoc_get_merge.
Qed.

Lemma getComponentProps_merge_witness :
  let s := State [HFunction 0 "App" "App" [("defaultProps", VRef 1)];
                  HObject [("text", VStr "default"); ("children", VStr "inherited")];
                  HObject [("text", VStr "own")];
                  HArray [] [];
                  HObject [("type", VRef 0); ("props", VRef 2); ("children", VRef 3)]]
             [] [] [] in
  exists r fields,
    getComponentProps (VRef 4) s
    = (Ok (VRef r), with_heap (heap s ++ [HObject fields]) s)
    /\ assoc_get "children" fields = Some (VRef 3)
    /\ assoc_get "text" fields = Some (VStr "own").
Proof.
  intros s.
  destruct (getComponentProps_merge s (VRef 4)) as (r & fields & H1 & _ & H3).
  - reflexivity.
  - apply (bool_decide_unpack _). vm_compute. exact I.
  - reflexivity.
  - exists r, fields. split; [exact H1 |].
    split; [rewrite H3 | rewrite H3]; reflexivity.
Defined.

(** C5 as stated fails for a vnode without a children field: the fallback of
    the children entry reads the free identifier [props], which the script
    never declares. *)
Lemma getComponentProps_absent_children_throws :
  let s := State [HFunction 0 "App" "App" [];
                  HObject [("type", VRef 0); ("props", VNull)]] [] [] [] in
  isFunctionalComponentNode (heap s) (VRef 1) = VBool true
  /\ read (heap s) (VRef 1) "children" = VUndefined
  /\ getComponentProps (VRef 1) s = (Throw (ReferenceError "props"), s).
Proof. repeat split. Qed.

(** ** Steps of the primitives *)

Lemma get_ref (l : loc) (key : string) s :
  get (VRef l) key s = (Ok (read (heap s) (VRef l) key), s).
Proof. reflexivity. Qed.

Lemma read_object h l own key :
  h !! l = Some (HObject own) ->
  read h (VRef l) key = default VUndefined (assoc_get key own).
Proof. intros H. unfold read. now rewrite H. Qed.

Lemma keys_of_object h l own :
  h !! l = Some (HObject own) -> keys_of h (VRef l) = map fst own.
Proof. intros H. unfold keys_of, spread. now rewrite H. Qed.

Lemma hasOwnProperty_object s l own key :
  heap s !! l = Some (HObject own) ->
  hasOwnProperty (VRef l) key s = (Ok (has_key key own), s).
Proof. intros H. unfold hasOwnProperty, spread. now rewrite H. Qed.

Lemma removeEventListener_node s el n own type cb :
  heap s !! el = Some (HNode n own) ->
  removeEventListener (VRef el) type (VRef cb) s =
  (Ok tt,
   add_op (OpRemoveEventListener el type (VRef cb))
     (with_heap
        (<[el := HNode (with_listeners
                          (List.filter (fun e => negb (same_listener type (VRef cb) e))
                             (listeners n)) n) own]> (heap s)) s)).
Proof.
  intros H. unfold removeEventListener, bind, receiver. rewrite H. reflexivity.
Qed.

Lemma addEventListener_node s el n own type cb :
  heap s !! el = Some (HNode n own) ->
  addEventListener (VRef el) type (VRef cb) s =
  (Ok tt,
   add_op (OpAddEventListener el type (VRef cb))
     (with_heap
        (<[el := HNode (with_listeners
                          (if existsb (same_listener type (VRef cb)) (listeners n)
                           then listeners n
                           else listeners n ++ [(type, VRef cb)]) n) own]> (heap s)) s)).
Proof.
  intros H. unfold addEventListener, bind, receiver. rewrite H. reflexivity.
Qed.

Ltac mnorm :=
  repeat (rewrite bind_bind || rewrite bind_ret || rewrite bind_get_heap);
  cbv beta.
Ltac mstep lem := mnorm; rewrite (bind_ok _ _ _ _ _ lem); cbv beta.

(** ** updateElementProps *)

(** C8.  With previous props {onClick: f} and next props {onClick: g} on any
    target node, a changed handler is removed and the new one added, each
    once and in that order, and nothing else is done to the target; an
    unchanged handler leaves the whole state as it was. *)
Theorem updateElementProps_listener_swap
    (s : state) (el pl nl : loc) (n : dom_node) (own : props) (f g : loc) :
  heap s !! el = Some (HNode n own) ->
  heap s !! pl = Some (HObject [("onClick", VRef f)]) ->
  heap s !! nl = Some (HObject [("onClick", VRef g)]) ->
  (f <> g ->
   exists s',
     updateElementProps (VRef el) (VRef nl) (VRef pl) s = (Ok tt, s')
     /\ ops s' = ops s ++ [OpRemoveEventListener el "click" (VRef f);
                           OpAddEventListener el "click" (VRef g)])
  /\ (f = g -> updateElementProps (VRef el) (VRef nl) (VRef pl) s = (Ok tt, s)).
Proof.
  intros Hel Hpl Hnl.
  assert (Hne1 : el <> pl) by congruence.
  assert (Hne2 : el <> nl) by congruence.
  assert (Hlt : el < length (heap s)) by (eapply lookup_lt_Some; eauto).
  unfold updateElementProps. simpl truthy. cbv iota. mnorm.
  rewrite (keys_of_object _ _ _ Hpl). simpl map. simpl forEach.
  mstep (hasOwnProperty_object _ _ _ "onClick" Hnl).
  simpl has_key. cbv iota. simpl negb. cbv iota. mnorm.
  rewrite (keys_of_object _ _ _ Hnl). simpl map. simpl forEach.
  mstep (hasOwnProperty_object _ _ _ "onClick" Hpl).
  mstep (get_ref pl "onClick" s).
  mstep (get_ref nl "onClick" s).
  rewrite (read_object _ _ _ _ Hpl), (read_object _ _ _ _ Hnl).
  simpl.
  split.
  - intros Hfg.
    rewrite bool_decide_true by congruence. simpl.
    unfold removeElementProp, setElementProp. simpl.
    mstep (removeEventListener_node _ _ _ _ "click" f Hel).
    match goal with |- context [bind _ _ ?st] => set (s1 := st) end.
    assert (Hel1 : heap s1 !! el = Some (HNode (with_listeners
              (List.filter (fun e => negb (same_listener "click" (VRef f) e))
                 (listeners n)) n) own)).
    { subst s1. simpl. apply list_lookup_insert_eq. exact Hlt. }
    change (getListenerName "onClick") with "click".
    mstep (addEventListener_node _ _ _ _ "click" g Hel1).
    eexists. split; [reflexivity |].
    subst s1. simpl. rewrite <- app_assoc. reflexivity.
  - intros ->. rewrite bool_decide_false by tauto. reflexivity.
Qed.

Lemma updateElementProps_listener_swap_witness :
  let s := State [HNode (new_node (NElement "button")) [];
                  HFunction 0 "f" "f" []; HFunction 1 "g" "g" [];
                  HObject [("onClick", VRef 1)];
                  HObject [("onClick", VRef 2)]] [] [] [] in
  exists s',
    updateElementProps (VRef 0) (VRef 4) (VRef 3) s = (Ok tt, s')
    /\ ops s' = [OpRemoveEventListener 0 "click" (VRef 1);
                 OpAddEventListener 0 "click" (VRef 2)].
Proof.
  intros s.
  apply (proj1 (updateElementProps_listener_swap s 0 3 4
                  (new_node (NElement "button")) [] 1 2
                  eq_refl eq_refl eq_refl)).
  discriminate.
Defined.

(** ** update *)

Section Update.
Variable app : fid -> list value -> list hobj -> outcome value * list hobj.


Lemma extends_refl s : extends s s.
Proof. exists []. destruct s. unfold with_heap. simpl. now rewrite app_nil_r. Qed.

Lemma extends_trans s1 s2 s3 : extends s1 s2 -> extends s2 s3 -> extends s1 s3.
Proof.
  intros [e1 ->] [e2 ->]. exists (e1 ++ e2). unfold with_heap. simpl.
  now rewrite app_assoc.
Qed.

Lemma frames_ret {A} (a : A) : frames (ret a).
Proof. intros s. apply extends_refl. Qed.

Lemma frames_throw {A} e : frames (@throw A e).
Proof. intros s. apply extends_refl. Qed.

Lemma frames_diverge {A} : frames (@diverge A).
Proof. intros s. apply extends_refl. Qed.

Lemma frames_get_heap : frames get_heap.
Proof. intros s. apply extends_refl. Qed.

Lemma frames_get base key : frames (get base key).
Proof. intros s. unfold get. destruct base; apply extends_refl. Qed.

Lemma frames_global name : frames (global name).
Proof. intros s. unfold global. destruct (assoc_get name (window s)); apply extends_refl. Qed.

Lemma frames_alloc o : frames (alloc o).
Proof. intros s. now exists [o]. Qed.

Lemma frames_call callee f args : frames (call app callee f args).
Proof.
  intros s. unfold call.
  destruct f; try apply extends_refl.
  destruct (heap s !! l) as [[] |]; try apply extends_refl.
  simpl. now eexists.
Qed.

Lemma frames_bind {A B} (m : M A) (k : A -> M B) :
  frames m -> (forall a, frames (k a)) -> frames (bind m k).
Proof.
  intros Hm Hk s. unfold bind. specialize (Hm s).
  destruct (m s) as [[a | e |] s']; simpl in *; try assumption.
  eapply extends_trans; [exact Hm | apply Hk].
Qed.

Lemma frames_mapM {A B} (f : A -> M B) xs :
  (forall x, frames (f x)) -> frames (mapM f xs).
Proof.
  intros Hf. induction xs as [| x xs IH]; simpl.
  - apply frames_ret.
  - apply frames_bind; [apply Hf |]. intros y.
    apply frames_bind; [apply IH |]. intros ys. apply frames_ret.
Qed.

Lemma frames_getComponentProps vnode : frames (getComponentProps vnode).
Proof.
  unfold getComponentProps.
  repeat (apply frames_bind; [first [apply frames_get | apply frames_get_heap] | intros ?]).
  apply frames_bind; [| intros ?; apply frames_alloc].
  destruct (truthy _); [apply frames_ret |].
  apply frames_bind; [apply frames_global | intros ?; apply frames_get].
Qed.

Lemma frames_expandTree fuel : forall vnode, frames (expandTree app fuel vnode).
Proof.
  induction fuel as [| fuel IH]; intros vnode; simpl.
  - apply frames_diverge.
  - apply frames_bind; [apply frames_get_heap | intros h].
    apply frames_bind.
    { destruct (String.eqb _ _); [apply frames_call | apply frames_ret]. }
    intros v. apply frames_bind; [apply frames_get_heap | intros h'].
    destruct (isEmptyNode h' v); [apply frames_ret |].
    destruct (isTextNode h' v); [apply frames_ret |].
    destruct (isFragmentNode h' v).
    { apply frames_bind; [apply frames_mapM, IH | intros ?; apply frames_alloc]. }
    destruct (truthy _).
    + apply frames_bind; [apply frames_get | intros ?].
      apply frames_bind; [apply frames_getComponentProps | intros ?].
      apply frames_bind; [apply frames_call | intros ?]. apply IH.
    + apply frames_bind; [apply frames_get | intros ?].
      apply frames_bind; [apply frames_mapM, IH | intros ?].
      apply frames_bind; [apply frames_alloc | intros ?]. apply frames_alloc.
Qed.

(** C7.  On a container with a rendered child, when the re-expansion of the
    container's vnode throws, update ends with that same exception in the
    state the expansion left, which is the initial state with newly allocated
    objects only: no existing object, and so no target node, is changed and
    no call is made on the rendering target. *)
Theorem update_expansion_failure (fuel : nat) (s s' : state) (c first : loc)
    (rest : list loc) (n : dom_node) (own : props) (e : exn) :
  heap s !! c = Some (HNode n own) ->
  childNodes n = first :: rest ->
  expandTree app fuel (read (heap s) (VRef c) "__vnode") s = (Throw e, s') ->
  update app fuel (VRef c) s = (Throw e, s')
  /\ exists ext, s' = with_heap (heap s ++ ext) s.
Proof.
  intros Hc Hn Hx. split.
  - unfold update, update_root.
    assert (H : first_child (VRef c) s = (Ok (VRef first), s)).
    { unfold first_child. now rewrite Hc, Hn. }
    mstep H. mstep (get_ref first "__vnode" s). mstep (get_ref c "__vnode" s).
    mnorm. now rewrite (bind_throw _ _ _ _ _ Hx).
  - pose proof (frames_expandTree fuel (read (heap s) (VRef c) "__vnode") s) as H.
    now rewrite Hx in H.
Qed.


End Update.



Lemma update_expansion_failure_witness :
  let s := rendered_empty_list in
  let s' := (expandTree app_throws 3 (VRef 2) s).2 in
  (update app_throws 3 (VRef 3) s = (Throw (Thrown (VStr "boom")), s')
   /\ exists ext, s' = with_heap (heap s ++ ext) s)
  /\ heap s' !! (4 : loc) = heap s !! (4 : loc).
Proof.
  intros s s'. split; [| reflexivity].
  apply (update_expansion_failure app_throws 3 s s' 3 4 []
           (DomNode (NElement "div") [] [] [4]) [("__vnode", VRef 2)]);
    reflexivity.
Defined.


(** ** expandTree *)

Lemma lookup_ext (h ext : list hobj) (l : loc) o : h !! l = Some o -> (h ++ ext) !! l = Some o.
Proof. apply lookup_app_l_Some. Qed.

Lemma typeof_ext h ext v : valid h v -> typeof (h ++ ext) v = typeof h v.
Proof.
  destruct v; try reflexivity. intros [o Ho]. unfold typeof.
  now rewrite (lookup_ext _ ext _ _ Ho), Ho.
Qed.

Lemma isArray_ext h ext v : valid h v -> isArray (h ++ ext) v = isArray h v.
Proof.
  destruct v; try reflexivity. intros [o Ho]. unfold isArray.
  now rewrite (lookup_ext _ ext _ _ Ho), Ho.
Qed.

Lemma elems_of_ext h ext v : valid h v -> elems_of (h ++ ext) v = elems_of h v.
Proof.
  destruct v; try reflexivity. intros [o Ho]. unfold elems_of.
  now rewrite (lookup_ext _ ext _ _ Ho), Ho.
Qed.

Lemma spread_ext h ext v : valid h v -> spread (h ++ ext) v = spread h v.
Proof.
  destruct v; try reflexivity. intros [o Ho]. unfold spread.
  now rewrite (lookup_ext _ ext _ _ Ho), Ho.
Qed.

Lemma expandos_ext h ext v : valid h v -> expandos (h ++ ext) v = expandos h v.
Proof.
  destruct v; try reflexivity. intros [o Ho]. unfold expandos.
  now rewrite (lookup_ext _ ext _ _ Ho), Ho.
Qed.

Lemma fields_of_ext h ext v : valid h v -> fields_of (h ++ ext) v = fields_of h v.
Proof.
  destruct v; try reflexivity. intros [o Ho]. unfold fields_of.
  now rewrite (lookup_ext _ ext _ _ Ho), Ho.
Qed.

Lemma read_ext h ext v key : valid h v -> read (h ++ ext) v key = read h v key.
Proof.
  destruct v; try reflexivity. intros [o Ho]. unfold read.
  now rewrite (lookup_ext _ ext _ _ Ho), Ho.
Qed.

Lemma isEmptyNode_ext h ext v : valid h v -> isEmptyNode (h ++ ext) v = isEmptyNode h v.
Proof. intros Hv. unfold isEmptyNode. now rewrite typeof_ext. Qed.

Lemma isTextNode_ext h ext v : valid h v -> isTextNode (h ++ ext) v = isTextNode h v.
Proof. intros Hv. unfold isTextNode. now rewrite typeof_ext. Qed.

Lemma valid_ext h ext v : valid h v -> valid (h ++ ext) v.
Proof.
  destruct v; try (intros; exact I). intros [o Ho]. exists o. now apply lookup_ext.
Qed.


(** A reference is neither Empty nor Text. *)
Lemma literal_not_ref h l : isEmptyNode h (VRef l) || isTextNode h (VRef l) = false.
Proof.
  unfold isEmptyNode, isTextNode. simpl.
  destruct (h !! l) as [[] |]; reflexivity.
Qed.

Lemma literal_valid h v : isEmptyNode h v || isTextNode h v = true -> valid h v.
Proof. destruct v; try (intros; exact I). now rewrite literal_not_ref. Qed.

Lemma plain_valid n h v : plain n h v = true -> valid h v.
Proof.
  destruct v; try (intros; exact I).
  destruct n; simpl; rewrite literal_not_ref; simpl; [discriminate |].
  destruct (h !! l); [eauto | discriminate].
Qed.

Lemma expanded_valid n h v : expanded n h v = true -> valid h v.
Proof.
  destruct v; try (intros; exact I).
  destruct n; simpl; rewrite literal_not_ref; simpl; [discriminate |].
  destruct (h !! l); [eauto | discriminate].
Qed.

Lemma forallb_impl {A} (f g : A -> bool) xs :
  (forall x, f x = true -> g x = true) ->
  forallb f xs = true -> forallb g xs = true.
Proof.
  intros H Hf. apply forallb_forall. intros x Hx.
  apply H. rewrite forallb_forall in Hf. now apply Hf.
Qed.

Lemma typeof_string h t :
  String.eqb (typeof h t) "string" = true -> exists s, t = VStr s.
Proof.
  destruct t; simpl; try discriminate; eauto.
  destruct (h !! l) as [[] |]; discriminate.
Qed.

Lemma toArray_valid n h c :
  forallb (plain n h) (toArray h c) = true -> valid h c.
Proof.
  destruct c; try (intros; exact I). unfold toArray, isArray. simpl.
  destruct (h !! l) as [o |] eqn:E; [eauto |].
  simpl. rewrite andb_true_r. intros H. apply plain_valid in H.
  destruct H as [o Ho]. congruence.
Qed.

Lemma toArray_ext h ext c : valid h c -> toArray (h ++ ext) c = toArray h c.
Proof.
  intros Hc. unfold toArray. now rewrite isArray_ext, elems_of_ext.
Qed.

Lemma plain_ext n : forall h ext v,
  plain n h v = true -> plain n (h ++ ext) v = true.
Proof.
  induction n as [| n IH]; intros h ext v H;
    pose proof (plain_valid _ _ _ H) as Hv;
    simpl in *; rewrite isEmptyNode_ext, isTextNode_ext by assumption;
    destruct (isEmptyNode h v || isTextNode h v); try reflexivity;
    simpl in *; try discriminate.
  destruct v; try discriminate.
  destruct (h !! l) as [o |] eqn:Hl; [| discriminate].
  rewrite (lookup_ext _ ext _ _ Hl).
  destruct o as [own | es own | |]; try discriminate.
  - apply andb_true_iff in H as [Ht Hc]. apply andb_true_iff.
    rewrite !read_ext by (simpl; eauto). split.
    + destruct (typeof_string _ _ Ht) as [t ->]. reflexivity.
    + rewrite toArray_ext by (eapply toArray_valid; eauto).
      eapply forallb_impl; [| exact Hc]. intros; now apply IH.
  - eapply forallb_impl; [| exact H]. intros; now apply IH.
Qed.

Lemma expanded_ext n : forall h ext v,
  expanded n h v = true -> expanded n (h ++ ext) v = true.
Proof.
  induction n as [| n IH]; intros h ext v H;
    pose proof (expanded_valid _ _ _ H) as Hv;
    simpl in *; rewrite isEmptyNode_ext, isTextNode_ext by assumption;
    destruct (isEmptyNode h v || isTextNode h v); try reflexivity;
    simpl in *; try discriminate.
  destruct v; try discriminate.
  destruct (h !! l) as [o |] eqn:Hl; [| discriminate].
  rewrite (lookup_ext _ ext _ _ Hl).
  destruct o as [own | es own | |]; try discriminate.
  - apply andb_true_iff in H as [Ht Hc]. apply andb_true_iff.
    rewrite !read_ext by (simpl; eauto). split.
    + destruct (typeof_string _ _ Ht) as [t ->]. reflexivity.
    + destruct (read h (VRef l) "children"); try discriminate.
      destruct (h !! l0) as [o |] eqn:Ha; [| discriminate].
      rewrite (lookup_ext _ ext _ _ Ha).
      destruct o as [| es [| ? ?] | |]; try discriminate.
      eapply forallb_impl; [| exact Hc]. intros; now apply IH.
  - destruct own; [| discriminate].
    eapply forallb_impl; [| exact H]. intros; now apply IH.
Qed.

Lemma isArray_valid h v : isArray h v = true -> valid h v.
Proof.
  destruct v; try discriminate. unfold isArray. simpl.
  destruct (h !! l); [eauto | discriminate].
Qed.

Lemma fields_of_valid h v ps : fields_of h v = Some ps -> valid h v.
Proof.
  destruct v; try discriminate. unfold fields_of. simpl.
  destruct (h !! l); [eauto | discriminate].
Qed.

Lemma same_array_ext (R R' : value -> value -> Prop) h ext v w :
  (forall x y, R x y -> R' x y) ->
  same_array R h v w -> same_array R' (h ++ ext) v w.
Proof.
  intros HR (Hv & Hw & He & Hf).
  pose proof (isArray_valid _ _ Hv). pose proof (isArray_valid _ _ Hw).
  unfold same_array.
  rewrite !isArray_ext, !expandos_ext, !elems_of_ext by assumption.
  repeat split; try assumption.
  eapply Forall2_impl; eauto.
Qed.

Lemma same_ext n : forall h ext v w, same n h v w -> same n (h ++ ext) v w.
Proof.
  induction n as [| n IH]; intros h ext v w H; simpl in *.
  - destruct H as [H | []]. now left.
  - destruct H as [H | [H | (ps & qs & Hp & Hq & Hf)]].
    + now left.
    + right. left. eapply same_array_ext; [| exact H]. intros; now apply IH.
    + right. right. exists ps, qs.
      rewrite !fields_of_ext by (eapply fields_of_valid; eauto).
      repeat split; try assumption.
      eapply Forall2_impl; [exact Hf |].
      intros p q (Hk & [Hv | (Hc & Ha)]); split; try assumption.
      * now left.
      * right. split; [assumption |].
        eapply same_array_ext; [| exact Ha]. intros; now apply IH.
Qed.

Section Expand.
Variable app : fid -> list value -> list hobj -> outcome value * list hobj.

Lemma with_heap_heap h s : heap (with_heap h s) = h.
Proof. reflexivity. Qed.

Lemma with_heap_twice h h' s : with_heap h' (with_heap h s) = with_heap h' s.
Proof. reflexivity. Qed.

Lemma with_heap_same s : with_heap (heap s) s = s.
Proof. now destruct s. Qed.

Lemma expandTree_literal fuel v s :
  isEmptyNode (heap s) v || isTextNode (heap s) v = true ->
  expandTree app (S fuel) v s = (Ok v, s).
Proof.
  intros H. cbn [expandTree]. mnorm.
  assert (Hf : String.eqb (typeof (heap s) v) "function" = false).
  { destruct v; try reflexivity. now rewrite literal_not_ref in H. }
  rewrite Hf. mnorm.
  destruct (isEmptyNode (heap s) v); [reflexivity |].
  simpl in H. now rewrite H.
Qed.

Lemma expandTree_fragment fuel l es own s :
  heap s !! l = Some (HArray es own) ->
  expandTree app (S fuel) (VRef l) s =
  bind (mapM (expandTree app fuel) es) (fun out => alloc (HArray out [])) s.
Proof.
  intros H. cbn [expandTree]. mnorm.
  assert (Hty : typeof (heap s) (VRef l) = "object").
  { unfold typeof. now rewrite H. }
  rewrite Hty. change ("object" =? "function") with false. cbv iota. mnorm.
  unfold isEmptyNode, isTextNode, isFragmentNode, isArray, elems_of.
  rewrite Hty, H. reflexivity.
Qed.

Lemma expandTree_element fuel l own s :
  heap s !! l = Some (HObject own) ->
  String.eqb (typeof (heap s) (read (heap s) (VRef l) "type")) "string" = true ->
  expandTree app (S fuel) (VRef l) s =
  bind (mapM (expandTree app fuel)
          (toArray (heap s) (read (heap s) (VRef l) "children")))
    (fun out =>
       bind (alloc (HArray out []))
         (fun children => alloc (HObject (assoc_set "children" children own)))) s.
Proof.
  intros H Ht. cbn [expandTree]. mnorm.
  assert (Hty : typeof (heap s) (VRef l) = "object").
  { unfold typeof. now rewrite H. }
  assert (Hfc : isFunctionalComponentNode (heap s) (VRef l) = VBool false).
  { unfold isFunctionalComponentNode. cbn [truthy].
    destruct (typeof_string _ _ Ht) as [t ->]. reflexivity. }
  rewrite Hty. change ("object" =? "function") with false. cbv iota. mnorm.
  unfold isEmptyNode, isTextNode, isFragmentNode, isArray, spread.
  rewrite Hty, Hfc, H. cbn -[mapM read toArray]. mnorm.
  rewrite !bool_decide_false by discriminate. cbn [orb]. mstep (get_ref l "children" s). reflexivity.
Qed.

Lemma mapM_app_ok {A B} (f : A -> M B) x xs s y s1 ys s2 :
  f x s = (Ok y, s1) -> mapM f xs s1 = (Ok ys, s2) ->
  mapM f (x :: xs) s = (Ok (y :: ys), s2).
Proof.
  intros H1 H2. simpl. rewrite (bind_ok _ _ _ _ _ H1).
  now rewrite (bind_ok _ _ _ _ _ H2).
Qed.

(** Expansion of each member of a list of plain vnodes. *)
Lemma mapM_expand_plain n fuel :
  (forall v s, plain n (heap s) v = true ->
     exists v' ext,
       expandTree app fuel v s = (Ok v', with_heap (heap s ++ ext) s)
       /\ expanded n (heap s ++ ext) v' = true) ->
  forall es s, forallb (plain n (heap s)) es = true ->
    exists out ext,
      mapM (expandTree app fuel) es s = (Ok out, with_heap (heap s ++ ext) s)
      /\ forallb (expanded n (heap s ++ ext)) out = true.
Proof.
  intros IH es. induction es as [| x xs IHes]; intros s H.
  - exists [], []. rewrite app_nil_r, with_heap_same. now split.
  - simpl in H. apply andb_true_iff in H as [Hx Hxs].
    destruct (IH x s Hx) as (y & e1 & Hy & Hey).
    destruct (IHes (with_heap (heap s ++ e1) s)) as (ys & e2 & Hys & Heys).
    { rewrite with_heap_heap. eapply forallb_impl; [| exact Hxs].
      intros; now apply plain_ext. }
    rewrite with_heap_heap, with_heap_twice in *.
    exists (y :: ys), (e1 ++ e2). rewrite app_assoc. split.
    + eapply mapM_app_ok; eauto.
    + simpl. rewrite Heys, andb_true_r. now apply expanded_ext.
Qed.

Lemma lookup_new (h : list hobj) o : (h ++ [o]) !! (length h : loc) = Some o.
Proof. apply lookup_alloc. Qed.

Lemma expanded_literal n h v :
  isEmptyNode h v || isTextNode h v = true -> expanded n h v = true.
Proof. intros H. destruct n; simpl; now rewrite H. Qed.

Lemma expand_plain n : forall fuel v s,
  n < fuel -> plain n (heap s) v = true ->
  exists v' ext,
    expandTree app fuel v s = (Ok v', with_heap (heap s ++ ext) s)
    /\ expanded n (heap s ++ ext) v' = true.
Proof.
  induction n as [| n IH]; intros fuel v s Hlt H;
    (destruct fuel as [| fuel]; [lia |]);
    simpl in H;
    destruct (isEmptyNode (heap s) v || isTextNode (heap s) v) eqn:Hlit.
  1, 3: exists v, []; rewrite app_nil_r, with_heap_same;
    split; [now apply expandTree_literal | now apply expanded_literal].
  - discriminate.
  - simpl in H. destruct v; try discriminate.
    destruct (heap s !! l) as [o |] eqn:Hl; [| discriminate].
    assert (IHm : forall es s0, forallb (plain n (heap s0)) es = true ->
      exists out ext,
        mapM (expandTree app fuel) es s0 = (Ok out, with_heap (heap s0 ++ ext) s0)
        /\ forallb (expanded n (heap s0 ++ ext)) out = true).
    { apply mapM_expand_plain. intros; apply IH; [lia | assumption]. }
    destruct o as [own | es own | |]; try discriminate.
    + apply andb_true_iff in H as [Ht Hc].
      destruct (IHm _ _ Hc) as (out & ext & Hm & Hout).
      set (a := length (heap s ++ ext)).
      set (o := HObject (assoc_set "children" (VRef a) own)).
      assert (E : heap s ++ ext ++ [HArray out []; o]
                  = ((heap s ++ ext) ++ [HArray out []]) ++ [o]).
      { now rewrite <- !app_assoc. }
      exists (VRef (length ((heap s ++ ext) ++ [HArray out []]))),
             (ext ++ [HArray out []; o]).
      rewrite E. split.
      { rewrite (expandTree_element _ _ _ _ Hl Ht).
        rewrite (bind_ok _ _ _ _ _ Hm). reflexivity. }
      assert (Ho : (((heap s ++ ext) ++ [HArray out []]) ++ [o])
                   !! (length ((heap s ++ ext) ++ [HArray out []]) : loc) = Some o).
      { apply lookup_new. }
      assert (Ha : (((heap s ++ ext) ++ [HArray out []]) ++ [o]) !! (a : loc)
                   = Some (HArray out [])).
      { apply lookup_ext. apply lookup_new. }
      cbn [expanded]. rewrite literal_not_ref. cbn [orb]. rewrite Ho.
      unfold read. rewrite Ho. subst o. cbn [own_of].
      rewrite !assoc_get_set. cbn [String.eqb Ascii.eqb Bool.eqb default]. 
      apply andb_true_iff. split.
      * destruct (typeof_string _ _ Ht) as [t Et].
        unfold read in Et. rewrite Hl in Et. cbn [own_of] in Et.
        rewrite Et. reflexivity.
      * unfold id. rewrite Ha. rewrite <- app_assoc.
        eapply forallb_impl; [| exact Hout]. intros; now apply expanded_ext.
    + destruct (IHm _ _ H) as (out & ext & Hm & Hout).
      exists (VRef (length (heap s ++ ext))), (ext ++ [HArray out []]).
      rewrite app_assoc. split.
      { rewrite (expandTree_fragment _ _ _ _ _ Hl).
        rewrite (bind_ok _ _ _ _ _ Hm). reflexivity. }
      cbn [expanded]. rewrite literal_not_ref. cbn [orb].
      rewrite lookup_new.
      eapply forallb_impl; [| exact Hout]. intros; now apply expanded_ext.
Qed.


Lemma Forall2_assoc_set (R : value -> value -> Prop) (k : string) c c' own :
  assoc_get k own = Some c -> R c c' ->
  Forall2 (fun p q => p.1 = q.1 /\ (p.2 = q.2 \/ (p.1 = k /\ R p.2 q.2)))
    own (assoc_set k c' own).
Proof.
  intros Hg HR. induction own as [| [k0 v0] own IH]; simpl in *; [discriminate |].
  destruct (String.eqb k k0) eqn:E.
  - apply String.eqb_eq in E. subst k0. inversion Hg; subst.
    constructor.
    + simpl. split; [reflexivity |]. right. now split.
    + clear. induction own as [| p own IH]; constructor; auto.
  - constructor; [simpl; auto |]. now apply IH.
Qed.

Lemma mapM_expand_expanded n fuel :
  (forall v s, expanded n (heap s) v = true ->
     exists v' ext,
       expandTree app fuel v s = (Ok v', with_heap (heap s ++ ext) s)
       /\ same n (heap s ++ ext) v v') ->
  forall es s, forallb (expanded n (heap s)) es = true ->
    exists out ext,
      mapM (expandTree app fuel) es s = (Ok out, with_heap (heap s ++ ext) s)
      /\ Forall2 (same n (heap s ++ ext)) es out.
Proof.
  intros IH es. induction es as [| x xs IHes]; intros s H.
  - exists [], []. rewrite app_nil_r, with_heap_same. now split.
  - simpl in H. apply andb_true_iff in H as [Hx Hxs].
    destruct (IH x s Hx) as (y & e1 & Hy & Hey).
    destruct (IHes (with_heap (heap s ++ e1) s)) as (ys & e2 & Hys & Heys).
    { rewrite with_heap_heap. eapply forallb_impl; [| exact Hxs].
      intros; now apply expanded_ext. }
    rewrite with_heap_heap, with_heap_twice in *.
    exists (y :: ys), (e1 ++ e2). rewrite app_assoc. split.
    + eapply mapM_app_ok; eauto.
    + constructor; [now apply same_ext | assumption].
Qed.

Lemma expand_expanded n : forall fuel v s,
  n < fuel -> expanded n (heap s) v = true ->
  exists v' ext,
    expandTree app fuel v s = (Ok v', with_heap (heap s ++ ext) s)
    /\ same n (heap s ++ ext) v v'.
Proof.
  induction n as [| n IH]; intros fuel v s Hlt H;
    (destruct fuel as [| fuel]; [lia |]);
    simpl in H;
    destruct (isEmptyNode (heap s) v || isTextNode (heap s) v) eqn:Hlit.
  1, 3: exists v, []; rewrite app_nil_r, with_heap_same;
    split; [now apply expandTree_literal | now left].
  - discriminate.
  - simpl in H. destruct v; try discriminate.
    destruct (heap s !! l) as [o |] eqn:Hl; [| discriminate].
    assert (IHm : forall es s0, forallb (expanded n (heap s0)) es = true ->
      exists out ext,
        mapM (expandTree app fuel) es s0 = (Ok out, with_heap (heap s0 ++ ext) s0)
        /\ Forall2 (same n (heap s0 ++ ext)) es out).
    { apply mapM_expand_expanded. intros; apply IH; [lia | assumption]. }
    destruct o as [own | es own | |]; try discriminate.
    + apply andb_true_iff in H as [Ht Hc].
      destruct (read (heap s) (VRef l) "children") as [| | | | | a] eqn:Hch;
        try discriminate.
      destruct (heap s !! a) as [oa |] eqn:Ha; [| discriminate].
      destruct oa as [| es [| ? ?] | |]; try discriminate.
      assert (Hta : toArray (heap s) (VRef a) = es).
      { unfold toArray, isArray, elems_of. now rewrite Ha. }
      destruct (IHm _ _ Hc) as (out & ext & Hm & Hout).
      set (a' := length (heap s ++ ext)).
      set (o := HObject (assoc_set "children" (VRef a') own)).
      assert (E : heap s ++ ext ++ [HArray out []; o]
                  = ((heap s ++ ext) ++ [HArray out []]) ++ [o]).
      { now rewrite <- !app_assoc. }
      exists (VRef (length ((heap s ++ ext) ++ [HArray out []]))),
             (ext ++ [HArray out []; o]).
      rewrite E. split.
      { rewrite (expandTree_element _ _ _ _ Hl Ht), Hch, Hta.
        rewrite (bind_ok _ _ _ _ _ Hm). reflexivity. }
      set (H' := ((heap s ++ ext) ++ [HArray out []]) ++ [o]).
      assert (Ho : H' !! (length ((heap s ++ ext) ++ [HArray out []]) : loc) = Some o)
        by apply lookup_new.
      assert (Ha' : H' !! (a' : loc) = Some (HArray out []))
        by apply lookup_ext, lookup_new.
      assert (Hl' : H' !! l = Some (HObject own)).
      { subst H'. rewrite <- E. now apply lookup_ext. }
      assert (Ha2 : H' !! a = Some (HArray es [])).
      { subst H'. rewrite <- E. now apply lookup_ext. }
      cbn [same]. right. right. exists own, (assoc_set "children" (VRef a') own).
      unfold fields_of. rewrite Hl', Ho. repeat split.
      apply Forall2_assoc_set with (c := VRef a).
      * unfold read in Hch. rewrite Hl in Hch. cbn [own_of] in Hch.
        destruct (assoc_get "children" own); simpl in Hch; [congruence | discriminate].
      * unfold same_array, isArray, expandos, elems_of.
        rewrite Ha2, Ha'. repeat split.
        subst H'. rewrite <- app_assoc.
        eapply Forall2_impl; [exact Hout |]. intros; now apply same_ext.
    + destruct own; [| discriminate].
      destruct (IHm _ _ H) as (out & ext & Hm & Hout).
      exists (VRef (length (heap s ++ ext))), (ext ++ [HArray out []]).
      rewrite app_assoc. split.
      { rewrite (expandTree_fragment _ _ _ _ _ Hl).
        rewrite (bind_ok _ _ _ _ _ Hm). reflexivity. }
      cbn [same]. right. left.
      unfold same_array, isArray, expandos, elems_of.
      rewrite lookup_new.
      rewrite (lookup_ext _ [HArray out []] _ _ (lookup_ext _ ext _ _ Hl)).
      repeat split.
      eapply Forall2_impl; [exact Hout |]. intros; now apply same_ext.
Qed.

(** C4.  For a vnode made of Element, Text, Empty and Fragment nodes only,
    with fuel beyond its depth, expandTree returns, expanding its result
    returns again, and the second result is structurally equal to the
    first. *)
Theorem expandTree_idempotent (n fuel : nat) (v : value) (s : state) :
  n < fuel ->
  plain n (heap s) v = true ->
  exists v1 s1 v2 s2,
    expandTree app fuel v s = (Ok v1, s1)
    /\ expandTree app fuel v1 s1 = (Ok v2, s2)
    /\ same n (heap s2) v1 v2.
Proof.
  intros Hlt Hp.
  destruct (expand_plain n fuel v s Hlt Hp) as (v1 & e1 & H1 & Hx).
  destruct (expand_expanded n fuel v1 (with_heap (heap s ++ e1) s) Hlt Hx)
    as (v2 & e2 & H2 & Hs).
  eauto 10.
Qed.

End Expand.

Lemma expandTree_idempotent_witness :
  exists v1 s1 v2 s2,
    expandTree app_none 4 (VRef 4) plain_tree = (Ok v1, s1)
    /\ expandTree app_none 4 v1 s1 = (Ok v2, s2)
    /\ same 3 (heap s2) v1 v2.
Proof.
  apply (expandTree_idempotent app_none 3 4 (VRef 4) plain_tree); [lia | reflexivity].
Defined.

(** ** renderString *)

Lemma set_ref (l : loc) o key v s :
  heap s !! l = Some o ->
  set (VRef l) key v s = (Ok tt, with_heap (<[l := set_own o key v]> (heap s)) s).
Proof. intros H. unfold set. now rewrite H. Qed.

Lemma set_literal h v key x s :
  isTextNode h v = true -> set v key x s = (Ok tt, s).
Proof.
  destruct v; try discriminate; try reflexivity.
  intros H. pose proof (literal_not_ref h l) as E.
  rewrite H, orb_true_r in E. discriminate.
Qed.

Lemma text_not_function h v : isTextNode h v = true -> String.eqb (typeof h v) "function" = false.
Proof.
  unfold isTextNode. destruct (typeof h v =? "string") eqn:E1.
  - apply String.eqb_eq in E1. now rewrite E1.
  - destruct (typeof h v =? "number") eqn:E2; [| discriminate].
    apply String.eqb_eq in E2. now rewrite E2.
Qed.

Lemma text_not_empty h v : isTextNode h v = true -> isEmptyNode h v = false.
Proof. destruct v; try discriminate; try reflexivity. intros H.
  pose proof (literal_not_ref h l) as E. rewrite H, orb_true_r in E. discriminate. Qed.

Lemma text_any_heap h h' v : isTextNode h v = true -> isTextNode h' v = true.
Proof. destruct v; try discriminate; try reflexivity. intros H.
  pose proof (literal_not_ref h l) as E. rewrite H, orb_true_r in E. discriminate. Qed.

Lemma create_node_run k o s :
  create_node k o s =
  (Ok (VRef (length (heap s))),
   add_op (o (length (heap s))) (with_heap (heap s ++ [HNode (new_node k) []]) s)).
Proof. reflexivity. Qed.

Lemma receiver_function meth (l : loc) c nm src own s :
  heap s !! l = Some (HFunction c nm src own) ->
  receiver meth (VRef l) s = (Throw (TypeError_not_a_function meth), s).
Proof. intros H. unfold receiver. now rewrite H. Qed.

Section RenderString.
Variable app : fid -> list value -> list hobj -> outcome value * list hobj.

Lemma render_into_function (fuel : nat) (s : state) (fn : loc) (e : value)
    (c : fid) (nm src : string) (fown : props) :
  heap s !! fn = Some (HFunction c nm src fown) ->
  isTextNode (heap s) e = true ->
  (render app (S fuel) e (VRef fn) s).1 = Throw (TypeError_not_a_function "appendChild").
Proof.
  intros Hfn He.
  assert (Hlt : fn < length (heap s)) by (eapply lookup_lt_Some; eauto).
  unfold render.
  assert (H1 : clear_innerHTML (VRef fn) s =
    (Ok tt, with_heap (<[fn := HFunction c nm src (assoc_set "innerHTML" (VStr "") fown)]> (heap s)) s)).
  { unfold clear_innerHTML. rewrite Hfn. exact (set_ref _ _ _ _ _ Hfn). }
  mstep H1. unfold backRef.
  match goal with |- context [bind _ _ ?st] => set (s1 := st) end.
  assert (Hfn1 : heap s1 !! fn = Some (HFunction c nm src (assoc_set "innerHTML" (VStr "") fown))).
  { subst s1. simpl. now apply list_lookup_insert_eq. }
  mstep (set_ref fn _ "__vnode" e s1 Hfn1).
  match goal with |- context [bind _ _ ?st] => set (s2 := st) end.
  mstep (set_literal (heap s) e "__ref" (VRef fn) s2 He).
  unfold call_appendChild. cbn [renderElement]. mnorm.
  rewrite (text_not_function (heap s2) e) by (eapply text_any_heap; eauto). mnorm.
  rewrite (text_not_empty (heap s2) e) by (eapply text_any_heap; eauto).
  rewrite (text_any_heap (heap s) (heap s2) e He).
  unfold document_createTextNode.
  mstep (create_node_run (NText (to_string (heap s2) e))
           (OpCreateTextNode (to_string (heap s2) e)) s2).
  unfold backRef.
  match goal with |- context [bind _ _ ?st] => set (s3 := st) end.
  assert (Hlen2 : length (heap s2) = length (heap s)).
  { subst s2 s1. simpl. now rewrite !length_insert. }
  assert (Hnew : heap s3 !! (length (heap s2) : loc) = Some (HNode (new_node (NText (to_string (heap s2) e))) [])).
  { subst s3. simpl. apply lookup_alloc. }
  mstep (set_ref _ _ "__vnode" e s3 Hnew).
  match goal with |- context [bind _ _ ?st] => set (s4 := st) end.
  mstep (set_literal (heap s) e "__ref" (VRef (length (heap s2))) s4 He).
  unfold appendChild.
  assert (Hfn4 : heap s4 !! fn = Some (HFunction c nm src
            (assoc_set "__vnode" e (assoc_set "innerHTML" (VStr "") fown)))).
  { assert (Hfn2 : heap s2 !! fn = Some (HFunction c nm src
              (assoc_set "__vnode" e (assoc_set "innerHTML" (VStr "") fown)))).
    { unfold s2. cbn [heap with_heap]. apply list_lookup_insert_eq.
      unfold s1. cbn [heap with_heap]. now rewrite length_insert. }
    unfold s4. cbn [heap with_heap].
    rewrite list_lookup_insert_ne by (rewrite Hlen2; lia).
    unfold s3. cbn [heap with_heap add_op].
    now apply lookup_alloc_old. }
  mnorm. now rewrite (bind_throw _ _ _ _ _ (receiver_function "appendChild" _ _ _ _ _ _ Hfn4)).
Qed.

Lemma renderString_fragment_throws (fuel : nat) (s : state) (fn l : loc)
    (e : value) (es : list value) (own fown : props) (c : fid) (nm src : string) :
  heap s !! fn = Some (HFunction c nm src fown) ->
  heap s !! l = Some (HArray (e :: es) own) ->
  isTextNode (heap s) e = true ->
  (renderString app (VRef fn) (S (S fuel)) (VRef l) s).1
  = Throw (TypeError_not_a_function "appendChild").
Proof.
  intros Hfn Hl He. cbn [renderString]. mnorm.
  assert (Hty : typeof (heap s) (VRef l) = "object").
  { unfold typeof. now rewrite Hl. }
  rewrite Hty. change ("object" =? "function") with false. cbv iota. mnorm.
  unfold isEmptyNode, isTextNode, isFragmentNode, isArray, elems_of.
  rewrite Hty, Hl. rewrite !bool_decide_false by discriminate.
  cbn [orb String.eqb Ascii.eqb Bool.eqb mapM]. mnorm.
  pose proof (render_into_function fuel s fn e c nm src fown Hfn He) as Hr.
  unfold bind at 1.
  destruct (render app (S fuel) e (VRef fn) s) as [[[] | x |] s'];
    simpl in Hr; try discriminate.
  simpl. congruence.
Qed.

End RenderString.

(** C2.  On the fragment of the two Text members "a" and "b" renderString
    does not return the members joined by a newline: it hands each member to
    render with the function renderString as the container, and render fails
    on the missing appendChild.  The sibling path, the children of an
    element, serializes the same two members and joins them. *)
Theorem renderString_text_fragment_fails :
  (renderString app_none (VRef 0) 3 (VRef 1) text_fragment).1
  = Throw (TypeError_not_a_function "appendChild")
  /\ (renderString app_none (VRef 0) 3 (VRef 1) text_fragment).1
     <> Ok (VStr ("a" +:+ newline +:+ "b"))
  /\ (renderString app_none (VRef 0) 3 (VRef 2)
        (State (heap text_fragment
                ++ [HObject [("type", VStr "p"); ("props", VNull);
                             ("children", VRef 1)]]) [] [] [])).1
     = Ok (VStr ("<p>a" +:+ newline +:+ "b</p>")).
Proof.
  assert (H : (renderString app_none (VRef 0) 3 (VRef 1) text_fragment).1
              = Throw (TypeError_not_a_function "appendChild")).
  { apply (renderString_fragment_throws app_none 1 text_fragment 0 1
             (VStr "a") [VStr "b"] [] [] 0 "renderString" "renderString");
      reflexivity. }
  split; [exact H |]. split; [rewrite H; discriminate | reflexivity].
Qed.

(** ** Kinds, component props and expansion *)

Lemma nat_str_not_type (i : nat) : String.eqb "type" (nat_str i) = false.
Proof.
  unfold nat_str. destruct (Nat.to_uint i); reflexivity.
Qed.

Lemma index_of_key_type (n : nat) : index_of_key "type" n = None.
Proof.
  unfold index_of_key. generalize 0.
  induction n as [| n IH]; intros k; cbn [seq List.find].
  - reflexivity.
  - rewrite nat_str_not_type. apply IH.
Qed.

Lemma read_string_type h s : read h (VStr s) "type" = VUndefined.
Proof. unfold read. cbn [String.eqb Ascii.eqb Bool.eqb]. now rewrite index_of_key_type. Qed.

(** X1.  A value that is not an array, or that has no type property,
    satisfies at most one of the five kind predicates isEmptyNode,
    isTextNode, isHtmlNode, isFragmentNode and isFunctionalComponentNode:
    two kinds can only overlap on an array that carries a type. *)
Theorem kinds_exclusive (h : list hobj) (v : value) :
  isArray h v = false \/ read h v "type" = VUndefined ->
  length (List.filter id (kinds h v)) <= 1.
Proof.
  intros H. destruct v as [| | b | z | t | l].
  1, 2: vm_compute; lia.
  - destruct b; vm_compute; lia.
  - destruct z; vm_compute; lia.
  - unfold kinds, isHtmlNode, isFunctionalComponentNode.
    rewrite read_string_type. destruct t; vm_compute; lia.
  - unfold kinds. pose proof (literal_not_ref h l) as Hlit.
    apply orb_false_iff in Hlit as [-> ->].
    unfold isHtmlNode, isFunctionalComponentNode, isFragmentNode. cbn [truthy].
    destruct H as [-> | ->].
    + destruct (typeof h (read h (VRef l) "type") =? "string") eqn:E.
      * apply String.eqb_eq in E. rewrite E. cbn. lia.
      * destruct (typeof h (read h (VRef l) "type") =? "function"); cbn; lia.
    + destruct (isArray h (VRef l)); vm_compute; lia.
Qed.

Lemma kinds_exclusive_witness :
  length (List.filter id
            (kinds [HObject [("type", VStr "div")]] (VRef 0))) <= 1.
Proof. apply kinds_exclusive. left. reflexivity. Defined.

Section Components.
Variable app : fid -> list value -> list hobj -> outcome value * list hobj.

Lemma get_nonnull v key s :
  truthy v = true -> get v key s = (Ok (read (heap s) v key), s).
Proof. destruct v; try discriminate; reflexivity. Qed.

(** The resolved props of a vnode whose type is a present object and whose
    children are truthy. *)
Lemma getComponentProps_run (s : state) (l : loc) (fs : props) (t : loc) :
  heap s !! l = Some (HObject fs) ->
  read (heap s) (VRef l) "type" = VRef t ->
  truthy (read (heap s) (VRef l) "children") = true ->
  getComponentProps (VRef l) s =
  (Ok (VRef (length (heap s))),
   with_heap
     (heap s ++
      [HObject
         (assoc_set "children" (read (heap s) (VRef l) "children")
            (merge
               (if truthy (read (heap s) (VRef t) "defaultProps")
                then spread (heap s) (read (heap s) (VRef t) "defaultProps")
                else [])
               (spread (heap s) (read (heap s) (VRef l) "props"))))]) s).
Proof.
  intros Hl Ht Hc. unfold getComponentProps.
  mstep (get_ref l "type" s). rewrite Ht.
  mstep (get_ref t "defaultProps" s). mnorm.
  mstep (get_ref l "props" s). mstep (get_ref l "children" s).
  rewrite Hc. mnorm. reflexivity.
Qed.

Lemma createElement_run (type props : value) (children : list value) (s : state) :
  createElement type props children s =
  (Ok (VRef (S (length (heap s)))),
   with_heap
     ((heap s ++ [HArray (concat_args (heap s) children) []]) ++
      [HObject [("type", type);
                ("props", if bool_decide (props = VUndefined) then VNull else props);
                ("children", VRef (length (heap s)))]]) s).
Proof.
  unfold createElement, bind, get_heap, alloc. simpl.
  rewrite length_app. simpl. now rewrite Nat.add_1_r.
Qed.

(** X2.  createElement with a function as the type, any props and any
    children arguments, followed by getComponentProps on the vnode it
    returns, succeeds: the vnode and the resolved props are objects, and the
    children entry of the resolved props is the array createElement built,
    whose members are the flattened children arguments (none, when no child
    is given).  The fallback [props.children], which would throw, is never
    reached for a vnode made by createElement. *)
Theorem createElement_component_props (s : state) (f : loc) (c : fid)
    (nm src : string) (fown : props) (p : value) (children : list value) :
  heap s !! f = Some (HFunction c nm src fown) ->
  exists l r a s',
    (v <- createElement (VRef f) p children ;;
     resolved <- getComponentProps v ;;
     ret (v, resolved)) s = (Ok (VRef l, VRef r), s')
    /\ read (heap s') (VRef r) "children" = VRef a
    /\ heap s' !! a = Some (HArray (concat_args (heap s) children) []).
Proof.
  intros Hf.
  set (arr := HArray (concat_args (heap s) children) []).
  set (fs := [("type", VRef f);
              ("props", if bool_decide (p = VUndefined) then VNull else p);
              ("children", VRef (length (heap s)))]).
  set (s1 := with_heap ((heap s ++ [arr]) ++ [HObject fs]) s).
  assert (Hl : heap s1 !! (S (length (heap s)) : loc) = Some (HObject fs)).
  { unfold s1. cbn [heap with_heap].
    replace (S (length (heap s))) with (length (heap s ++ [arr])).
    - apply lookup_alloc.
    - rewrite length_app. simpl. lia. }
  assert (Ha : heap s1 !! (length (heap s) : loc) = Some arr).
  { unfold s1. cbn [heap with_heap]. apply lookup_alloc_old, lookup_alloc. }
  assert (Ht : read (heap s1) (VRef (S (length (heap s)))) "type" = VRef f).
  { unfold read. now rewrite Hl. }
  assert (Hc : read (heap s1) (VRef (S (length (heap s)))) "children"
               = VRef (length (heap s))).
  { unfold read. now rewrite Hl. }
  eexists _, _, (length (heap s)), _. split; [| split].
  - mstep (createElement_run (VRef f) p children s). fold arr fs s1.
    assert (Hct : truthy (read (heap s1) (VRef (S (length (heap s)))) "children") = true)
      by now rewrite Hc.
    rewrite (bind_ok _ _ _ _ _ (getComponentProps_run s1 _ fs f Hl Ht Hct)).
    reflexivity.
  - cbn [heap with_heap]. unfold read at 1. rewrite lookup_alloc. cbn [own_of].
    rewrite assoc_get_set. cbn. exact Hc.
  - cbn [heap with_heap]. now apply lookup_alloc_old.
Qed.

Lemma createElement_component_props_witness :
  exists l r a s',
    (v <- createElement (VRef 0) VUndefined [] ;;
     resolved <- getComponentProps v ;;
     ret (v, resolved)) (State [HFunction 0 "App" "App" []] [] [] [])
    = (Ok (VRef l, VRef r), s')
    /\ read (heap s') (VRef r) "children" = VRef a
    /\ heap s' !! a = Some (HArray [] []).
Proof.
  apply (createElement_component_props
           (State [HFunction 0 "App" "App" []] [] [] []) 0 0 "App" "App" []
           VUndefined []).
  reflexivity.
Defined.





(** X5.  Whatever the vnode and however the expansion ends, expandTree
    changes the state by allocating new objects only: no existing object is
    written, no call is made on the rendering target, nothing is logged. *)
Theorem expandTree_allocates_only (fuel : nat) (vnode : value) (s : state) :
  exists ext, (expandTree app fuel vnode s).2 = with_heap (heap s ++ ext) s.
Proof. apply (frames_expandTree app fuel vnode s). Qed.

End Components.



(** ** The calls of updateElementProps *)

Lemma patched_refl el n own s :
  heap s !! el = Some (HNode n own) -> is_element n = true -> patched el [] s s.
Proof.
  intros H He. exists n, n, own. repeat split; try assumption.
  rewrite list_insert_id by assumption. rewrite app_nil_r. now destruct s.
Qed.

Lemma patched_trans el a b s1 s2 s3 :
  patched el a s1 s2 -> patched el b s2 s3 -> patched el (a ++ b) s1 s3.
Proof.
  intros (n1 & n2 & own & H1 & E1 & ->) (n2' & n3 & own' & H2 & E2 & ->).
  cbn [heap window console ops] in *.
  assert (Hlt : el < length (heap s1)) by (eapply lookup_lt_Some; eauto).
  rewrite list_lookup_insert_eq in H2 by assumption.
  inversion H2; subst.
  exists n1, n3, own'. repeat split; try assumption.
  rewrite list_insert_insert_eq, app_assoc. reflexivity.
Qed.

Lemma patched_el el a s s' :
  patched el a s s' ->
  exists n' own, heap s' !! el = Some (HNode n' own) /\ is_element n' = true.
Proof.
  intros (n & n' & own & H & E & ->). exists n', own. split; [| assumption].
  cbn [heap]. apply list_lookup_insert_eq. eapply lookup_lt_Some; eauto.
Qed.

Lemma patched_other el a s s' (l : loc) :
  patched el a s s' -> l <> el -> heap s' !! l = heap s !! l.
Proof.
  intros (n & n' & own & H & E & ->) Hne. cbn [heap].
  now apply list_lookup_insert_ne.
Qed.

Lemma patched_ops el a s s' : patched el a s s' -> ops s' = ops s ++ a.
Proof. now intros (n & n' & own & H & E & ->). Qed.

Lemma receiver_node meth (l : loc) n own s :
  heap s !! l = Some (HNode n own) -> receiver meth (VRef l) s = (Ok (l, n, own), s).
Proof. intros H. unfold receiver. now rewrite H. Qed.

Lemma is_element_kind n attrs ls cs :
  is_element n = true -> is_element (DomNode (kind n) attrs ls cs) = true.
Proof. unfold is_element. simpl. auto. Qed.

Lemma setElementProp_patched (el : loc) n own key v s :
  heap s !! el = Some (HNode n own) -> is_element n = true ->
  (isEventListener key = true -> handler v = true) ->
  exists s', setElementProp (VRef el) key v s = (Ok tt, s')
             /\ patched el [prop_set_op el key v] s s'.
Proof.
  intros H He Hh. unfold setElementProp, prop_set_op.
  destruct (isEventListener key).
  - unfold addEventListener. mstep (receiver_node "addEventListener" el n own s H).
    assert (Hl : listener_arg "addEventListener" v s = (Ok tt, s)).
    { specialize (Hh eq_refl). destruct v; try discriminate; reflexivity. }
    mstep Hl. eexists. split; [reflexivity |].
    eexists n, _, own. split; [exact H |]. split; [| reflexivity].
    now apply is_element_kind.
  - unfold setAttribute. mstep (receiver_node "setAttribute" el n own s H).
    rewrite He. mnorm. eexists. split; [reflexivity |].
    eexists n, _, own. split; [exact H |]. split; [| reflexivity].
    now apply is_element_kind.
Qed.

Lemma removeElementProp_patched (el : loc) n own key v s :
  heap s !! el = Some (HNode n own) -> is_element n = true ->
  (isEventListener key = true -> handler v = true) ->
  exists s', removeElementProp (VRef el) key v s = (Ok tt, s')
             /\ patched el [prop_remove_op el key v] s s'.
Proof.
  intros H He Hh. unfold removeElementProp, prop_remove_op.
  destruct (isEventListener key).
  - unfold removeEventListener.
    mstep (receiver_node "removeEventListener" el n own s H).
    assert (Hl : listener_arg "removeEventListener" v s = (Ok tt, s)).
    { specialize (Hh eq_refl). destruct v; try discriminate; reflexivity. }
    mstep Hl. eexists. split; [reflexivity |].
    eexists n, _, own. split; [exact H |]. split; [| reflexivity].
    now apply is_element_kind.
  - unfold removeAttribute. mstep (receiver_node "removeAttribute" el n own s H).
    rewrite He. eexists. split; [reflexivity |].
    eexists n, _, own. split; [exact H |]. split; [| reflexivity].
    now apply is_element_kind.
Qed.

Lemma forEach_patched {A} (el : loc) (P : state -> Prop) (f : A -> M unit)
    (g : A -> list dom_op) (xs : list A) :
  (forall a s s', P s -> patched el a s s' -> P s') ->
  (forall x s n own, In x xs -> P s ->
     heap s !! el = Some (HNode n own) -> is_element n = true ->
     exists s', f x s = (Ok tt, s') /\ patched el (g x) s s') ->
  forall s n own, P s ->
    heap s !! el = Some (HNode n own) -> is_element n = true ->
    exists s', forEach f xs s = (Ok tt, s') /\ patched el (flat_map g xs) s s'.
Proof.
  intros HP Hf. induction xs as [| x xs IH]; intros s n own Ps Hel He.
  - exists s. split; [reflexivity |]. eapply patched_refl; eauto.
  - destruct (Hf x s n own (or_introl eq_refl) Ps Hel He) as (s1 & H1 & R1).
    destruct (patched_el _ _ _ _ R1) as (n1 & own1 & Hel1 & He1).
    destruct (IH (fun y s0 n0 own0 Hy => Hf y s0 n0 own0 (or_intror Hy))
                s1 n1 own1 (HP _ _ _ Ps R1) Hel1 He1) as (s2 & H2 & R2).
    exists s2. split.
    + cbn [forEach]. now rewrite (bind_ok _ _ _ _ _ H1).
    + cbn [flat_map]. eapply patched_trans; eauto.
Qed.

Lemma has_key_In k (ps : props) : In k (map fst ps) -> has_key k ps = true.
Proof.
  unfold has_key. induction ps as [| [k0 v0] ps IH]; simpl; [tauto |].
  intros [-> | H].
  - now rewrite String.eqb_refl.
  - destruct (String.eqb k k0); [reflexivity | now apply IH].
Qed.

Lemma assoc_get_In k v (ps : props) : assoc_get k ps = Some v -> In (k, v) ps.
Proof.
  induction ps as [| [k0 v0] ps IH]; simpl; [discriminate |].
  destruct (String.eqb k k0) eqn:E.
  - apply String.eqb_eq in E. intros [= ->]. left. now subst.
  - intros H. right. now apply IH.
Qed.

Lemma handlers_look k ps :
  handlers ps -> isEventListener k = true -> handler (look k ps) = true.
Proof.
  intros H Hk. unfold look. destruct (assoc_get k ps) as [v |] eqn:E; [| reflexivity].
  apply assoc_get_In in E. unfold handlers in H. rewrite Forall_forall in H.
  apply (H (k, v)); [now apply list_elem_of_In | assumption].
Qed.

(** The calls that updateElementProps makes on an element, given the
    previous and the next props as two objects. *)
Lemma updateElementProps_trace (s : state) (el pl nl : loc) (n : dom_node)
    (own ps qs : props) :
  heap s !! el = Some (HNode n own) -> is_element n = true ->
  heap s !! pl = Some (HObject ps) ->
  heap s !! nl = Some (HObject qs) ->
  handlers ps -> handlers qs ->
  exists s',
    updateElementProps (VRef el) (VRef nl) (VRef pl) s = (Ok tt, s')
    /\ patched el (removals el ps qs ++ updates el ps qs) s s'.
Proof.
  intros Hel He Hpl Hnl Hps Hqs.
  assert (Hne1 : pl <> el) by congruence.
  assert (Hne2 : nl <> el) by congruence.
  set (P := fun s0 : state => heap s0 !! pl = Some (HObject ps)
                              /\ heap s0 !! nl = Some (HObject qs)).
  assert (HP : forall a s0 s1, P s0 -> patched el a s0 s1 -> P s1).
  { intros a s0 s1 [H1 H2] R. split.
    - now rewrite (patched_other _ _ _ _ pl R Hne1).
    - now rewrite (patched_other _ _ _ _ nl R Hne2). }
  unfold updateElementProps. cbn [truthy]. mnorm.
  rewrite (keys_of_object _ _ _ Hpl).
  destruct (forEach_patched el P
              (fun key => has <- hasOwnProperty (VRef nl) key ;;
                          if negb has
                          then v <- get (VRef pl) key ;;
                               removeElementProp (VRef el) key v
                          else ret tt)
              (fun k => if has_key k qs then []
                        else [prop_remove_op el k (look k ps)])
              (map fst ps) HP) with (s := s) (n := n) (own := own)
    as (s1 & H1 & R1); try assumption; [| now split |].
  { intros k s0 n0 own0 Hk [Hp0 Hn0] Hel0 He0.
    mstep (hasOwnProperty_object s0 nl qs k Hn0).
    destruct (has_key k qs).
    - exists s0. split; [reflexivity |]. eapply patched_refl; eauto.
    - cbn [negb]. mstep (get_ref pl k s0). rewrite (read_object _ _ _ k Hp0).
      apply (removeElementProp_patched el n0 own0); try assumption.
      intros Hk'. now apply handlers_look. }
  rewrite (bind_ok _ _ _ _ _ H1). cbv beta. mnorm.
  destruct (patched_el _ _ _ _ R1) as (n1 & own1 & Hel1 & He1).
  destruct (HP _ _ _ (conj Hpl Hnl) R1) as [Hpl1 Hnl1].
  rewrite (keys_of_object _ _ _ Hnl1).
  destruct (forEach_patched el P
              (fun key =>
                 had <- hasOwnProperty (VRef pl) key ;;
                 old <- get (VRef pl) key ;;
                 new <- get (VRef nl) key ;;
                 if (negb had || bool_decide (old <> new))
                    && negb (String.eqb key "key") && negb (String.eqb key "ref")
                 then
                   (if isEventListener key && had
                    then removeElementProp (VRef el) key old
                    else ret tt) ;;;
                   setElementProp (VRef el) key new
                 else ret tt)
              (fun k =>
                 if (negb (has_key k ps) || bool_decide (look k ps <> look k qs))
                    && negb (String.eqb k "key") && negb (String.eqb k "ref")
                 then (if isEventListener k && has_key k ps
                       then [prop_remove_op el k (look k ps)] else [])
                      ++ [prop_set_op el k (look k qs)]
                 else [])
              (map fst qs) HP) with (s := s1) (n := n1) (own := own1)
    as (s2 & H2 & R2); try assumption; [| now split |].
  { intros k s0 n0 own0 Hk [Hp0 Hn0] Hel0 He0.
    mstep (hasOwnProperty_object s0 pl ps k Hp0).
    mstep (get_ref pl k s0). mstep (get_ref nl k s0).
    rewrite (read_object _ _ _ k Hp0), (read_object _ _ _ k Hn0).
    fold (look k ps) (look k qs).
    destruct ((negb (has_key k ps) || bool_decide (look k ps <> look k qs))
              && negb (String.eqb k "key") && negb (String.eqb k "ref")).
    2: { exists s0. split; [reflexivity |]. eapply patched_refl; eauto. }
    destruct (isEventListener k && has_key k ps) eqn:Eev.
    - apply andb_true_iff in Eev as [Eev _].
      destruct (removeElementProp_patched el n0 own0 k (look k ps) s0 Hel0 He0)
        as (sa & Ha & Ra); [intros; now apply handlers_look |].
      destruct (patched_el _ _ _ _ Ra) as (na & owna & Hela & Hea).
      destruct (setElementProp_patched el na owna k (look k qs) sa Hela Hea)
        as (sb & Hb & Rb); [intros; now apply handlers_look |].
      exists sb. split.
      + mstep Ha. exact Hb.
      + eapply patched_trans; eauto.
    - mnorm.
      destruct (setElementProp_patched el n0 own0 k (look k qs) s0 Hel0 He0)
        as (sb & Hb & Rb); [intros; now apply handlers_look |].
      exists sb. split; [exact Hb | exact Rb]. }
  exists s2. split; [exact H2 |]. eapply patched_trans; eauto.
Qed.




(** X7.  When the previous props have at least one key and the next props
    are null or undefined, updateElementProps throws the TypeError of reading
    hasOwnProperty of null or undefined, before anything is changed: the
    default [nextProps || {}] is applied only after the loop that removes the
    old props. *)
Theorem updateElementProps_next_missing (s : state) (el next : value) (pl : loc)
    (k : string) (v : value) (ps : props) :
  heap s !! pl = Some (HObject ((k, v) :: ps)) ->
  next = VNull \/ next = VUndefined ->
  updateElementProps el next (VRef pl) s
  = (Throw (TypeError_read_of next "hasOwnProperty"), s).
Proof.
  intros Hpl Hn. unfold updateElementProps. cbn [truthy]. mnorm.
  rewrite (keys_of_object _ _ _ Hpl). cbn [map forEach fst]. mnorm.
  destruct Hn as [-> | ->]; reflexivity.
Qed.

Lemma updateElementProps_next_missing_witness :
  let s := State [HObject [("class", VStr "App")]] [] [] [] in
  updateElementProps VUndefined VNull (VRef 0) s
  = (Throw (TypeError_read_of VNull "hasOwnProperty"), s).
Proof.
  intros s.
  apply (updateElementProps_next_missing s VUndefined VNull 0 "class" (VStr "App") []);
    [reflexivity | now left].
Defined.


Ltac solve_handlers :=
  repeat (constructor; [cbn; intros ?H; first [reflexivity | discriminate] |]);
  constructor.



(** X9.  When the next props are an empty object, updateElementProps
    removes every previous prop, in the order of the previous keys and with
    nothing else done to the element: removeAttribute for an attribute,
    removeEventListener with the old handler for an on* key (the keys key
    and ref included). *)
Theorem updateElementProps_dropped_props (s : state) (el pl nl : loc) (n : dom_node)
    (own ps : props) :
  heap s !! el = Some (HNode n own) -> is_element n = true ->
  heap s !! pl = Some (HObject ps) ->
  heap s !! nl = Some (HObject []) ->
  handlers ps ->
  exists s',
    updateElementProps (VRef el) (VRef nl) (VRef pl) s = (Ok tt, s')
    /\ ops s' = ops s ++ map (fun k => prop_remove_op el k (look k ps)) (map fst ps).
Proof.
  intros Hel He Hpl Hnl Hps.
  destruct (updateElementProps_trace s el pl nl n own ps [] Hel He Hpl Hnl Hps)
    as (s' & H & R); [constructor |].
  exists s'. split; [exact H |].
  rewrite (patched_ops _ _ _ _ R). f_equal.
  unfold removals, updates. cbn [map flat_map]. rewrite app_nil_r.
  induction (map fst ps) as [| k ks IH]; [reflexivity |].
  cbn [flat_map map]. change (has_key k []) with false. cbn [app].
  now rewrite IH.
Qed.

Lemma updateElementProps_dropped_props_witness :
  let s := State [HNode (new_node (NElement "li")) [];
                  HObject [("key", VStr "k1"); ("class", VStr "item")];
                  HObject []] [] [] [] in
  exists s',
    updateElementProps (VRef 0) (VRef 2) (VRef 1) s = (Ok tt, s')
    /\ ops s' = [OpRemoveAttribute 0 "key"; OpRemoveAttribute 0 "class"].
Proof.
  intros s.
  destruct (updateElementProps_dropped_props s 0 1 2 (new_node (NElement "li")) []
              [("key", VStr "k1"); ("class", VStr "item")])
    as (s' & H & Ho); try reflexivity.
  - solve_handlers.
  - exists s'. split; [exact H | exact Ho].
Defined.





(** ** The footprint of renderElement and render *)

Lemma kept_refl N o : kept N o o.
Proof.
  split; [intros k _ _; reflexivity |].
  destruct o; auto. repeat split.
  exists (fun _ => true). split; [reflexivity |].
  induction (childNodes n) as [| x xs IH]; [reflexivity |]. simpl. now f_equal.
Qed.

Lemma filter_filter {A} (f g : A -> bool) xs :
  List.filter g (List.filter f xs) = List.filter (fun x => f x && g x) xs.
Proof.
  induction xs as [| x xs IH]; [reflexivity |]. simpl.
  destruct (f x); simpl; [destruct (g x); now rewrite IH | exact IH].
Qed.

Lemma kept_trans N o1 o2 o3 : kept N o1 o2 -> kept N o2 o3 -> kept N o1 o3.
Proof.
  intros [R1 K1] [R2 K2]. split.
  { intros k H1 H2. now rewrite R2, R1. }
  destruct o1, o2, o3; try contradiction; auto.
  - congruence.
  - destruct K1 as (-> & -> & ->), K2 as (-> & -> & ->). auto.
  - destruct K1 as (Ha & Hb & Hc & k1 & Hk1 & Hd).
    destruct K2 as (Ha' & Hb' & Hc' & k2 & Hk2 & Hd').
    repeat split; try congruence.
    exists (fun x => k1 x && k2 x). split.
    + intros x Hx. now rewrite Hk1, Hk2.
    + now rewrite Hd', Hd, filter_filter.
Qed.

Lemma keeps_refl N s : keeps N s s.
Proof. repeat split; auto. intros l o _ H. exists o. split; [assumption | apply kept_refl]. Qed.

Lemma keeps_trans N s1 s2 s3 : keeps N s1 s2 -> keeps N s2 s3 -> keeps N s1 s3.
Proof.
  intros (L1 & W1 & C1 & H1) (L2 & W2 & C2 & H2).
  repeat split; try lia; try congruence.
  intros l o Hl Ho. destruct (H1 l o Hl Ho) as (o2 & Ho2 & K1).
  destruct (H2 l o2 Hl Ho2) as (o3 & Ho3 & K2).
  exists o3. split; [assumption | eapply kept_trans; eauto].
Qed.

(** A state in which the objects below [N] are as they were. *)
Lemma keeps_agree N s s' :
  length (heap s) <= length (heap s') ->
  window s' = window s -> console s' = console s ->
  (forall (l : loc) o, l < N -> heap s !! l = Some o -> heap s' !! l = Some o) ->
  keeps N s s'.
Proof.
  intros L W C H. repeat split; auto.
  intros l o Hl Ho. exists o. split; [now apply H | apply kept_refl].
Qed.

Lemma keeps_extends N s s' : extends s s' -> keeps N s s'.
Proof.
  intros [ext ->]. apply keeps_agree; try reflexivity.
  - cbn [heap with_heap]. rewrite length_app. lia.
  - intros l o _ Ho. cbn [heap with_heap]. now apply lookup_alloc_old.
Qed.

Lemma keeps_insert_fresh N s (l : loc) o w c ops' :
  N <= l -> w = window s -> c = console s ->
  keeps N s (State (<[l := o]> (heap s)) w c ops').
Proof.
  intros Hl -> ->. apply keeps_agree; try reflexivity.
  - cbn [heap]. now rewrite length_insert.
  - intros l' o' Hl' Ho'. cbn [heap]. rewrite list_lookup_insert_ne by lia. exact Ho'.
Qed.

Lemma builds_ret {A} N (a : A) (Q : A -> Prop) : Q a -> builds N (ret a) Q.
Proof. intros H s _. split; [apply keeps_refl |]. now intros b [= <-]. Qed.

Lemma builds_throw {A} N e (Q : A -> Prop) : builds N (throw e) Q.
Proof. intros s _. split; [apply keeps_refl | discriminate]. Qed.

Lemma builds_diverge {A} N (Q : A -> Prop) : builds N diverge Q.
Proof. intros s _. split; [apply keeps_refl | discriminate]. Qed.

Lemma builds_weaken {A} N (m : M A) (Q Q' : A -> Prop) :
  (forall a, Q a -> Q' a) -> builds N m Q -> builds N m Q'.
Proof. intros H Hm s Hs. destruct (Hm s Hs) as [K HQ]. split; auto. Qed.

Lemma builds_bind {A B} N (m : M A) (k : A -> M B) (Q : A -> Prop) (Q' : B -> Prop) :
  builds N m Q -> (forall a, Q a -> builds N (k a) Q') -> builds N (bind m k) Q'.
Proof.
  intros Hm Hk s Hs. destruct (Hm s Hs) as [K HQ]. unfold bind.
  destruct (m s) as [[a | e |] s1]; cbn [fst snd] in *.
  - assert (Hs1 : N <= length (heap s1)) by (destruct K; lia).
    destruct (Hk a (HQ a eq_refl) s1 Hs1) as [K' HQ'].
    split; [eapply keeps_trans; eauto | exact HQ'].
  - split; [assumption | discriminate].
  - split; [assumption | discriminate].
Qed.

Lemma builds_frames {A} N (m : M A) : frames m -> builds N m (fun _ => True).
Proof. intros H s _. split; [apply keeps_extends, H | auto]. Qed.

Lemma builds_pure {A} N (m : M A) :
  (forall s, (m s).2 = s) -> builds N m (fun _ => True).
Proof. intros H s _. rewrite H. split; [apply keeps_refl | auto]. Qed.

Lemma builds_forEach {A} N (f : A -> M unit) (xs : list A) :
  (forall x, builds N (f x) (fun _ => True)) ->
  builds N (forEach f xs) (fun _ => True).
Proof.
  intros Hf. induction xs as [| x xs IH]; cbn [forEach].
  - now apply builds_ret.
  - eapply builds_bind; [apply Hf | intros _ _; exact IH].
Qed.

Lemma builds_get N base key : builds N (get base key) (fun _ => True).
Proof. apply builds_pure. intros s. destruct base; reflexivity. Qed.

Lemma builds_get_heap N : builds N get_heap (fun _ => True).
Proof. now apply builds_pure. Qed.

Lemma builds_hasOwnProperty N base key : builds N (hasOwnProperty base key) (fun _ => True).
Proof.
  apply builds_pure. intros s. unfold hasOwnProperty.
  destruct base; try reflexivity. destruct (heap s !! l) as [[] |]; reflexivity.
Qed.

Lemma builds_alloc N o : builds N (alloc o) (fun _ => True).
Proof. apply builds_frames, frames_alloc. Qed.

Lemma builds_create_node N k o : builds N (create_node k o) (fresh N).
Proof.
  intros s Hs. split.
  - apply keeps_agree; try reflexivity.
    + cbn. rewrite length_app. lia.
    + intros l x _ Hx. cbn. now apply lookup_alloc_old.
  - intros a [= <-]. exists (length (heap s)). auto.
Qed.

Lemma assoc_get_set_ne k k' v ps : k <> k' -> assoc_get k (assoc_set k' v ps) = assoc_get k ps.
Proof.
  intros H. rewrite assoc_get_set. destruct (String.eqb k k') eqn:E; [| reflexivity].
  apply String.eqb_eq in E. contradiction.
Qed.

Lemma kept_set_own N o key v :
  key = "__ref" \/ key = "ref" -> kept N o (set_own o key v).
Proof.
  intros Hk. split.
  - intros k H1 H2. destruct o; cbn [set_own own_of];
      apply assoc_get_set_ne; destruct Hk; congruence.
  - destruct o; cbn [set_own]; auto. repeat split.
    exists (fun _ => true). split; [reflexivity |].
    induction (childNodes n) as [| x xs IH]; [reflexivity |]. simpl. now f_equal.
Qed.

(** Writing a back-reference expando. *)
Lemma builds_set_ref N base key v :
  key = "__ref" \/ key = "ref" -> builds N (set base key v) (fun _ => True).
Proof.
  intros Hk s Hs. split; [| auto]. unfold set.
  destruct base; try apply keeps_refl.
  destruct (heap s !! l) as [o |] eqn:E; [| apply keeps_refl].
  cbn [snd]. repeat split; cbn [heap with_heap window console].
  - now rewrite length_insert.
  - intros l' o' Hl' Ho'. destruct (decide (l' = l)) as [-> | Hne].
    + rewrite list_lookup_insert_eq by (eapply lookup_lt_Some; eauto).
      eexists. split; [reflexivity |]. rewrite E in Ho'. inversion Ho'; subst.
      now apply kept_set_own.
    + rewrite list_lookup_insert_ne by congruence.
      exists o'. split; [assumption | apply kept_refl].
Qed.

(** Writing any property of an object that is new. *)
Lemma builds_set_fresh N (l : loc) key v :
  N <= l -> builds N (set (VRef l) key v) (fun _ => True).
Proof.
  intros Hl s Hs. split; [| auto]. unfold set.
  destruct (heap s !! l) as [o |]; [| apply keeps_refl].
  cbn [snd]. now apply keeps_insert_fresh.
Qed.

Lemma builds_backRef N el vnode : fresh N el -> builds N (backRef el vnode) (fresh N).
Proof.
  intros (l & -> & Hl). unfold backRef.
  eapply builds_bind; [now apply builds_set_fresh | intros _ _].
  eapply builds_bind; [apply builds_set_ref; now left | intros _ _].
  apply builds_ret. now exists l.
Qed.

Lemma fresh_not_old N v : fresh N v -> not_old N v.
Proof. intros (l & -> & Hl) l' [= <-]. exact Hl. Qed.

Lemma builds_receiver N meth el :
  builds N (receiver meth el) (fun r => el = VRef r.1.1).
Proof.
  intros s _. unfold receiver. destruct el; try (split; [apply keeps_refl | discriminate]).
  destruct (heap s !! l) as [[] |]; try (split; [apply keeps_refl | discriminate]).
  split; [apply keeps_refl |]. now intros a [= <-].
Qed.

Lemma builds_put_node N (l : loc) n own o :
  N <= l -> builds N (put_node l n own o) (fun _ => True).
Proof. intros Hl s _. split; [| auto]. now apply keeps_insert_fresh. Qed.

Lemma builds_listener_arg N meth cb : builds N (listener_arg meth cb) (fun _ => True).
Proof. apply builds_pure. intros s. destruct cb; reflexivity. Qed.

Lemma builds_setElementProp N el key v :
  not_old N el -> builds N (setElementProp el key v) (fun _ => True).
Proof.
  intros Hel. unfold setElementProp, addEventListener, setAttribute.
  destruct (isEventListener key);
    (eapply builds_bind; [apply builds_receiver | intros [[l n] own] Hr]);
    cbn [fst] in Hr; specialize (Hel l Hr).
  - eapply builds_bind; [apply builds_listener_arg | intros _ _].
    now apply builds_put_node.
  - destruct (is_element n); [| apply builds_throw].
    eapply builds_bind; [apply builds_get_heap | intros h _].
    now apply builds_put_node.
Qed.

Lemma builds_removeElementProp N el key v :
  not_old N el -> builds N (removeElementProp el key v) (fun _ => True).
Proof.
  intros Hel. unfold removeElementProp, removeEventListener, removeAttribute.
  destruct (isEventListener key);
    (eapply builds_bind; [apply builds_receiver | intros [[l n] own] Hr]);
    cbn [fst] in Hr; specialize (Hel l Hr).
  - eapply builds_bind; [apply builds_listener_arg | intros _ _].
    now apply builds_put_node.
  - destruct (is_element n); [| apply builds_throw].
    now apply builds_put_node.
Qed.

Lemma builds_updateElementProps N el next prev :
  not_old N el -> builds N (updateElementProps el next prev) (fun _ => True).
Proof.
  intros Hel. unfold updateElementProps.
  eapply builds_bind with (Q := fun _ => True).
  { destruct (truthy prev); [now apply builds_ret | apply builds_alloc]. }
  intros prev' _.
  eapply builds_bind; [apply builds_get_heap | intros h _].
  eapply builds_bind with (Q := fun _ => True).
  { apply builds_forEach. intros key.
    eapply builds_bind; [apply builds_hasOwnProperty | intros has _].
    destruct (negb has); [| now apply builds_ret].
    eapply builds_bind; [apply builds_get | intros v _].
    now apply builds_removeElementProp. }
  intros _ _.
  eapply builds_bind with (Q := fun _ => True).
  { destruct (truthy next); [now apply builds_ret | apply builds_alloc]. }
  intros next' _.
  eapply builds_bind; [apply builds_get_heap | intros h' _].
  apply builds_forEach. intros key.
  eapply builds_bind; [apply builds_hasOwnProperty | intros had _].
  eapply builds_bind; [apply builds_get | intros old _].
  eapply builds_bind; [apply builds_get | intros new _].
  destruct (_ && _ && _); [| now apply builds_ret].
  eapply builds_bind with (Q := fun _ => True).
  { destruct (isEventListener key && had); [| now apply builds_ret].
    now apply builds_removeElementProp. }
  intros _ _. now apply builds_setElementProp.
Qed.

Lemma lookup_detach (c l : loc) h :
  detach c h !! l =
  (fun o => set_children (List.filter (fun x => negb (Nat.eqb x c)) (children_of o)) o)
    <$> h !! l.
Proof. unfold detach. apply list_lookup_fmap. Qed.

Lemma kept_detach N (c : loc) o :
  N <= c ->
  kept N o (set_children (List.filter (fun x => negb (Nat.eqb x c)) (children_of o)) o).
Proof.
  intros Hc. destruct o; try apply kept_refl.
  split; [intros k _ _; reflexivity |]. cbn. repeat split.
  exists (fun x => negb (Nat.eqb x c)). split; [| reflexivity].
  intros x Hx. apply negb_true_iff, Nat.eqb_neq. lia.
Qed.

Lemma length_add_children p cs h : length (add_children p cs h) = length h.
Proof. unfold add_children. destruct (h !! p); [apply length_insert | reflexivity]. Qed.

Lemma lookup_add_children_ne (p l : loc) cs h :
  l <> p -> add_children p cs h !! l = h !! l.
Proof.
  intros H. unfold add_children. destruct (h !! p); [| reflexivity].
  now apply list_lookup_insert_ne.
Qed.

Lemma builds_appendChild N parent child :
  not_old N parent -> not_old N child ->
  builds N (appendChild parent child) (fun _ => True).
Proof.
  intros Hp Hc. unfold appendChild.
  eapply builds_bind; [apply builds_receiver | intros [[p n] own] Hr].
  cbn [fst] in Hr. specialize (Hp p Hr).
  intros s Hs. split; [| auto].
  destruct child as [| | | | | c]; try apply keeps_refl.
  specialize (Hc c eq_refl).
  destruct (heap s !! c) as [[| | | cn cown] |] eqn:Ec; try apply keeps_refl.
  destruct (kind n) eqn:Ek; try apply keeps_refl;
    cbn [snd]; destruct (kind cn) eqn:Ekc.
  all: repeat split; cbn [heap with_heap add_op window console];
    rewrite ?length_add_children, ?length_insert, ?length_map; try reflexivity;
    try (unfold detach; rewrite length_map; reflexivity).
  all: intros l o Hl Ho; rewrite lookup_add_children_ne by lia.
  all: try (rewrite list_lookup_insert_ne by lia; exists o;
            split; [assumption | apply kept_refl]).
  all: rewrite lookup_detach, Ho; cbn [fmap option_fmap option_map];
    eexists; split; [reflexivity | now apply kept_detach].
Qed.

Lemma builds_call_appendChild N target (arg : M value) :
  not_old N target -> builds N arg (fresh N) ->
  builds N (call_appendChild target arg) (fun _ => True).
Proof.
  intros Ht Ha. unfold call_appendChild.
  destruct target; try apply builds_throw;
    (eapply builds_bind; [exact Ha | intros c Hc];
     apply builds_appendChild; [assumption | now apply fresh_not_old]).
Qed.

Section Materialize.
Variable app : fid -> list value -> list hobj -> outcome value * list hobj.

Lemma builds_call N callee f args : builds N (call app callee f args) (fun _ => True).
Proof. apply builds_frames, frames_call. Qed.

Lemma builds_renderElement fuel : forall N vnode,
  builds N (renderElement app fuel vnode) (fresh N).
Proof.
  induction fuel as [| fuel IH]; intros N vnode; cbn [renderElement].
  - apply builds_diverge.
  - eapply builds_bind; [apply builds_get_heap | intros h _].
    eapply builds_bind with (Q := fun _ => True).
    { destruct (String.eqb _ _); [apply builds_call | now apply builds_ret]. }
    intros v _.
    eapply builds_bind; [apply builds_get_heap | intros h' _].
    destruct (isEmptyNode h' v).
    { eapply builds_bind; [apply builds_create_node | intros el Hel].
      now apply builds_backRef. }
    destruct (isTextNode h' v).
    { eapply builds_bind; [apply builds_create_node | intros el Hel].
      now apply builds_backRef. }
    destruct (isFragmentNode h' v).
    { eapply builds_bind; [apply builds_create_node | intros fragment Hf].
      eapply builds_bind with (Q := fun _ => True).
      { apply builds_forEach. intros e.
        apply builds_call_appendChild; [now apply fresh_not_old | apply IH]. }
      intros _ _.
      eapply builds_bind; [apply builds_set_ref; now right | intros _ _].
      now apply builds_backRef. }
    destruct (truthy _).
    { eapply builds_bind; [apply builds_get | intros type _].
      eapply builds_bind;
        [apply builds_frames, frames_getComponentProps | intros p _].
      eapply builds_bind; [apply builds_call | intros r _]. apply IH. }
    eapply builds_bind; [apply builds_get | intros type _].
    eapply builds_bind; [apply builds_create_node | intros created Hc].
    eapply builds_bind; [now apply builds_backRef | intros el Hel].
    eapply builds_bind; [apply builds_get | intros p _].
    eapply builds_bind with (Q := fun _ => True).
    { apply builds_updateElementProps. now apply fresh_not_old. }
    intros _ _.
    eapply builds_bind; [apply builds_get | intros c _].
    eapply builds_bind; [apply builds_get_heap | intros h'' _].
    eapply builds_bind with (Q := fun _ => True).
    { apply builds_forEach. intros child.
      apply builds_call_appendChild; [now apply fresh_not_old | apply IH]. }
    intros _ _. now apply builds_ret.
Qed.

(** X11.  renderElement only builds: however it ends, every object that
    existed before keeps its kind and contents, except that vnodes may gain
    the back-reference expandos [__ref] and [ref]; no existing DOM node gets
    a new attribute, listener or child; the globals and the console are
    untouched; and a returned node is newly allocated. *)
Theorem renderElement_builds_only (fuel : nat) (vnode : value) (s : state) :
  keeps (length (heap s)) s (renderElement app fuel vnode s).2
  /\ forall r, (renderElement app fuel vnode s).1 = Ok r ->
       fresh (length (heap s)) r.
Proof. apply (builds_renderElement fuel (length (heap s)) vnode s). lia. Qed.


Lemma keeps_function N s s' (l : loc) c nm src own :
  keeps N s s' -> l < N -> heap s !! l = Some (HFunction c nm src own) ->
  exists own', heap s' !! l = Some (HFunction c nm src own').
Proof.
  intros (_ & _ & _ & H) Hl Ho. destruct (H l _ Hl Ho) as (o' & Ho' & _ & K).
  destruct o' as [| | c' nm' src' own' |]; try contradiction.
  destruct K as (-> & -> & ->). eauto.
Qed.


End Materialize.


(** ** Failures of renderString and renderElement *)

Section Failures.
Variable app : fid -> list value -> list hobj -> outcome value * list hobj.

Lemma render_into_function_fails (fuel : nat) (vnode : value) (s : state)
    (fn : loc) (c : fid) (nm src : string) (fown : props) (u : unit) :
  heap s !! fn = Some (HFunction c nm src fown) ->
  (render app fuel vnode (VRef fn) s).1 <> Ok u.
Proof.
  intros Hfn.
  assert (Hlt : fn < length (heap s)) by (eapply lookup_lt_Some; eauto).
  assert (H1 : clear_innerHTML (VRef fn) s =
    (Ok tt, with_heap (<[fn := HFunction c nm src (assoc_set "innerHTML" (VStr "") fown)]>
                         (heap s)) s)).
  { unfold clear_innerHTML. rewrite Hfn. exact (set_ref _ _ _ _ _ Hfn). }
  set (s1 := with_heap (<[fn := HFunction c nm src (assoc_set "innerHTML" (VStr "") fown)]>
                          (heap s)) s) in *.
  assert (Hfn1 : heap s1 !! fn
                 = Some (HFunction c nm src (assoc_set "innerHTML" (VStr "") fown))).
  { unfold s1. cbn [heap with_heap]. now apply list_lookup_insert_eq. }
  pose proof (set_ref fn _ "__vnode" vnode s1 Hfn1) as H2.
  set (s2 := with_heap _ s1) in H2.
  assert (Hlen2 : length (heap s2) = length (heap s)).
  { unfold s2, s1. cbn [heap with_heap]. now rewrite !length_insert. }
  assert (Hfn2 : exists o, heap s2 !! fn = Some (HFunction c nm src o)).
  { eexists. unfold s2. cbn [heap with_heap set_own]. apply list_lookup_insert_eq.
    unfold s1. cbn [heap with_heap]. now rewrite length_insert. }
  destruct Hfn2 as [o2 Hfn2].
  assert (Hout : render app fuel vnode (VRef fn) s
                 = bind (set vnode "__ref" (VRef fn))
                     (fun _ => bind (renderElement app fuel vnode)
                                 (fun r => appendChild (VRef fn) r)) s2).
  { unfold render, backRef. mstep H1. mstep H2. mnorm. reflexivity. }
  rewrite Hout. clear Hout.
  destruct (builds_set_ref (length (heap s2)) vnode "__ref" (VRef fn)
              (or_introl eq_refl) s2 (Nat.le_refl _)) as [K3 _].
  destruct (set vnode "__ref" (VRef fn) s2) as [[[] | e |] s3] eqn:E3;
    cbn [snd fst] in K3.
  2: { now rewrite (bind_throw _ _ _ _ _ E3). }
  2: { now rewrite (bind_diverge _ _ _ _ E3). }
  rewrite (bind_ok _ _ _ _ _ E3).
  destruct (keeps_function _ _ _ fn _ _ _ _ K3 ltac:(lia) Hfn2) as (o3 & Hfn3).
  assert (Hlen3 : length (heap s) <= length (heap s3)) by (destruct K3; lia).
  destruct (builds_renderElement app fuel (length (heap s3)) vnode s3 (Nat.le_refl _))
    as [K4 _].
  destruct (renderElement app fuel vnode s3) as [[rv | e |] s4] eqn:E4;
    cbn [snd fst] in K4.
  2: { now rewrite (bind_throw _ _ _ _ _ E4). }
  2: { now rewrite (bind_diverge _ _ _ _ E4). }
  rewrite (bind_ok _ _ _ _ _ E4).
  destruct (keeps_function _ _ _ fn _ _ _ _ K4 ltac:(lia) Hfn3) as (o4 & Hfn4).
  unfold appendChild.
  now rewrite (bind_throw _ _ _ _ _ (receiver_function "appendChild" _ _ _ _ _ _ Hfn4)).
Qed.

(** X13.  renderString never returns a value for a fragment with at least
    one member, whatever the member is: each member is handed to render with
    the function renderString as the container, and render cannot end
    normally on a container that is a function. *)
Theorem renderString_fragment_never_returns (fuel : nat) (s : state) (fn l : loc)
    (e : value) (es : list value) (own fown : props) (c : fid) (nm src : string)
    (v : value) :
  heap s !! fn = Some (HFunction c nm src fown) ->
  heap s !! l = Some (HArray (e :: es) own) ->
  (renderString app (VRef fn) fuel (VRef l) s).1 <> Ok v.
Proof.
  intros Hfn Hl. destruct fuel as [| fuel]; [discriminate |].
  cbn [renderString]. mnorm.
  assert (Hty : typeof (heap s) (VRef l) = "object").
  { unfold typeof. now rewrite Hl. }
  rewrite Hty. change ("object" =? "function") with false. cbv iota. mnorm.
  unfold isEmptyNode, isTextNode, isFragmentNode, isArray, elems_of.
  rewrite Hty, Hl. rewrite !bool_decide_false by discriminate.
  cbn [orb String.eqb Ascii.eqb Bool.eqb mapM]. mnorm.
  pose proof (render_into_function_fails fuel e s fn c nm src fown tt Hfn) as Hr.
  unfold bind at 1.
  destruct (render app fuel e (VRef fn) s) as [[[] | x |] s'];
    cbn [fst] in *; [congruence | discriminate | discriminate].
Qed.

Lemma set_nonnull base key v s :
  base <> VNull -> base <> VUndefined -> exists s', set base key v s = (Ok tt, s').
Proof.
  intros H1 H2. unfold set. destruct base; try contradiction; eauto.
  destruct (heap s !! l); eauto.
Qed.

Lemma clear_innerHTML_nonnull el s :
  el <> VNull -> el <> VUndefined -> exists s', clear_innerHTML el s = (Ok tt, s').
Proof.
  intros H1 H2. unfold clear_innerHTML.
  destruct el; try (now apply set_nonnull).
  destruct (heap s !! l) as [[| | | n own] |]; try (now apply set_nonnull).
  destruct (is_element n); [eauto | now apply set_nonnull].
Qed.

(** X14.  renderElement throws on the vnodes null and undefined, although
    it classifies them as Empty: after the comment node is created, backRef
    assigns the property __ref on the vnode, which is a TypeError.  render
    into any container that is not itself null or undefined fails the same
    way, even earlier (backRef of the container). *)
Theorem render_nullish_throws (fuel : nat) (vnode container : value) (s : state) :
  vnode = VNull \/ vnode = VUndefined ->
  (renderElement app (S fuel) vnode s).1 = Throw (TypeError_set_on vnode "__ref")
  /\ ops (renderElement app (S fuel) vnode s).2
     = ops s ++ [OpCreateComment ("(" +:+ to_string (heap s) vnode +:+ ")")
                   (length (heap s))]
  /\ (container <> VNull -> container <> VUndefined ->
      (render app fuel vnode container s).1 = Throw (TypeError_set_on vnode "__ref")).
Proof.
  intros Hv.
  assert (Hre : renderElement app (S fuel) vnode s =
    (Throw (TypeError_set_on vnode "__ref"),
     with_heap
       (<[length (heap s) :=
            HNode (new_node (NComment ("(" +:+ to_string (heap s) vnode +:+ ")")))
              [("__vnode", vnode)]]>
          (heap s ++ [HNode (new_node (NComment ("(" +:+ to_string (heap s) vnode +:+ ")"))) []]))
       (add_op (OpCreateComment ("(" +:+ to_string (heap s) vnode +:+ ")")
                  (length (heap s))) s))).
  { cbn [renderElement]. mnorm.
    assert (Hf : String.eqb (typeof (heap s) vnode) "function" = false)
      by (destruct Hv as [-> | ->]; reflexivity).
    assert (He : isEmptyNode (heap s) vnode = true)
      by (destruct Hv as [-> | ->]; reflexivity).
    rewrite Hf. mnorm. rewrite He. unfold document_createComment.
    mstep (create_node_run (NComment ("(" +:+ to_string (heap s) vnode +:+ ")"))
             (OpCreateComment ("(" +:+ to_string (heap s) vnode +:+ ")")) s).
    unfold backRef.
    match goal with |- context [bind _ _ ?st] => set (s1 := st) end.
    assert (Hn : heap s1 !! (length (heap s) : loc)
                 = Some (HNode (new_node (NComment ("(" +:+ to_string (heap s) vnode +:+ ")"))) [])).
    { unfold s1. cbn [heap with_heap add_op]. apply lookup_alloc. }
    mstep (set_ref _ _ "__vnode" vnode s1 Hn).
    destruct Hv as [-> | ->]; reflexivity. }
  split; [now rewrite Hre |]. split; [now rewrite Hre |].
  intros H1 H2. unfold render, backRef.
  destruct (clear_innerHTML_nonnull container s H1 H2) as (s1 & E1).
  mstep E1.
  destruct (set_nonnull container "__vnode" vnode s1 H1 H2) as (s2 & E2).
  mstep E2. destruct Hv as [-> | ->]; reflexivity.
Qed.

End Failures.

Lemma renderString_fragment_never_returns_witness :
  (renderString app_none (VRef 0) 3 (VRef 1) text_fragment).1
  <> Ok (VStr ("a" +:+ newline +:+ "b")).
Proof.
  apply (renderString_fragment_never_returns app_none 3 text_fragment 0 1
           (VStr "a") [VStr "b"] [] [] 0 "renderString" "renderString"); reflexivity.
Defined.

Lemma render_nullish_throws_witness :
  let s := State [HNode (new_node (NElement "div")) []] [] [] [] in
  (renderElement app_none 1 VNull s).1 = Throw (TypeError_set_on VNull "__ref")
  /\ ops (renderElement app_none 1 VNull s).2
     = ops s ++ [OpCreateComment ("(" +:+ to_string (heap s) VNull +:+ ")")
                   (length (heap s))]
  /\ (VRef 0 <> VNull -> VRef 0 <> VUndefined ->
      (render app_none 0 VNull (VRef 0) s).1 = Throw (TypeError_set_on VNull "__ref")).
Proof.
  intros s. apply (render_nullish_throws app_none 0 VNull (VRef 0) s). left. reflexivity.
Defined.

(** ** shallowEqual and shouldNodeUpdate *)

Lemma every_pure {A} (f : A -> M bool) (p : A -> bool) (xs : list A) s :
  (forall x, In x xs -> f x s = (Ok (p x), s)) ->
  every f xs s = (Ok (forallb p xs), s).
Proof.
  induction xs as [| x xs IH]; intros H; [reflexivity |].
  cbn [every forallb]. rewrite (bind_ok _ _ _ _ _ (H x (or_introl eq_refl))).
  destruct (p x); [| reflexivity].
  apply IH. intros y Hy. apply H. now right.
Qed.







Lemma to_uint_nonnil (n : nat) : Nat.to_uint n <> Decimal.Nil.
Proof.
  assert (H : Nat.to_uint n = Decimal.unorm (Nat.to_uint n)).
  { now rewrite <- Unsigned.to_of, Unsigned.of_to. }
  rewrite H. unfold Decimal.unorm. destruct (Decimal.nzhead _); discriminate.
Qed.

Lemma nat_str_inj (i j : nat) : nat_str i = nat_str j -> i = j.
Proof.
  unfold nat_str. intros H.
  apply (f_equal NilZero.uint_of_string) in H.
  rewrite !NilZero.usu in H by apply to_uint_nonnil.
  injection H as H. apply (f_equal Nat.of_uint) in H.
  now rewrite !Unsigned.of_to in H.
Qed.

Lemma nat_str_not_length (i : nat) : String.eqb (nat_str i) "length" = false.
Proof. unfold nat_str. destruct (Nat.to_uint i); reflexivity. Qed.

Lemma index_of_key_nat_str (i len : nat) :
  i < len -> index_of_key (nat_str i) len = Some i.
Proof.
  unfold index_of_key. intros H.
  assert (G : forall n a, a <= i < a + n ->
            List.find (fun j => String.eqb (nat_str i) (nat_str j)) (seq a n) = Some i).
  { induction n as [| n IH]; intros a Ha; [lia |].
    cbn [seq List.find].
    destruct (String.eqb (nat_str i) (nat_str a)) eqn:E.
    - apply String.eqb_eq, nat_str_inj in E. now subst.
    - apply IH. apply String.eqb_neq in E.
      assert (a <> i) by (intros ->; now apply E). lia. }
  apply G. lia.
Qed.

Lemma keys_indexed (es : list value) :
  map fst (indexed es) = map nat_str (seq 0 (length es)).
Proof.
  unfold indexed. rewrite map_map. cbn [fst].
  generalize 0. induction es as [| e es IH]; intros a; [reflexivity |].
  cbn [length seq combine map fst]. f_equal. apply IH.
Qed.

Lemma read_array_index h l es own i :
  h !! l = Some (HArray es own) -> i < length es ->
  read h (VRef l) (nat_str i) = default VUndefined (es !! i).
Proof.
  intros H Hi. unfold read. rewrite H, nat_str_not_length.
  now rewrite (index_of_key_nat_str _ _ Hi).
Qed.

Lemma shallowEqual_arrays_run (s : state) (la lb : loc) (ea eb : list value) :
  heap s !! la = Some (HArray ea []) ->
  heap s !! lb = Some (HArray eb []) ->
  shallowEqual (VRef la) (VRef lb) s = (Ok (bool_decide (ea = eb)), s).
Proof.
  intros Ha Hb.
  destruct (decide (la = lb)) as [-> | Hne].
  { assert (ea = eb) by congruence. subst.
    unfold shallowEqual. now rewrite !bool_decide_true by reflexivity. }
  unfold shallowEqual.
  rewrite (bool_decide_false (VRef la = VRef lb)) by congruence. mnorm.
  unfold typeof. rewrite Ha, Hb.
  rewrite !bool_decide_false by discriminate.
  cbn [negb orb String.eqb Ascii.eqb Bool.eqb].
  assert (Ka : keys_of (heap s) (VRef la) = map nat_str (seq 0 (length ea))).
  { unfold keys_of, spread. now rewrite Ha, app_nil_r, keys_indexed. }
  assert (Kb : keys_of (heap s) (VRef lb) = map nat_str (seq 0 (length eb))).
  { unfold keys_of, spread. now rewrite Hb, app_nil_r, keys_indexed. }
  rewrite Ka, Kb, !length_map, !length_seq.
  destruct (Nat.eqb (length ea) (length eb)) eqn:El; cbn [negb].
  2: { apply Nat.eqb_neq in El. rewrite bool_decide_false; [reflexivity |].
       intros ->. now apply El. }
  apply Nat.eqb_eq in El.
  rewrite (every_pure _ (fun k => bool_decide (read (heap s) (VRef la) k
                                               = read (heap s) (VRef lb) k))).
  2: { intros k Hk. apply in_map_iff in Hk as (i & <- & Hi).
       apply in_seq in Hi.
       assert (Hh : hasOwnProperty (VRef lb) (nat_str i) s = (Ok true, s)).
       { unfold hasOwnProperty. rewrite Hb. f_equal. f_equal.
         apply orb_true_iff. right. apply has_key_In.
         unfold spread. rewrite Hb, app_nil_r, keys_indexed.
         apply in_map, in_seq. lia. }
       mstep Hh. cbn [negb]. mstep (get_ref la (nat_str i) s).
       mstep (get_ref lb (nat_str i) s). reflexivity. }
  f_equal. f_equal. apply eq_true_iff_eq.
  rewrite forallb_forall, bool_decide_eq_true. split.
  - intros H. apply list_eq_same_length with (length ea); [lia | lia |].
    intros i x y Hi Hx Hy.
    assert (Hin : In (nat_str i) (map nat_str (seq 0 (length ea))))
      by (apply in_map, in_seq; lia).
    specialize (H (nat_str i) Hin).
    apply bool_decide_eq_true in H.
    rewrite (read_array_index _ _ _ _ i Ha), (read_array_index _ _ _ _ i Hb) in H by lia.
    rewrite Hx, Hy in H. exact H.
  - intros E k Hk. apply in_map_iff in Hk as (i & <- & Hi). apply in_seq in Hi.
    apply bool_decide_eq_true.
    rewrite (read_array_index _ _ _ _ i Ha), (read_array_index _ _ _ _ i Hb) by lia.
    now rewrite E.
Qed.

(** X16.  On two arrays without extra properties shallowEqual returns true
    exactly when they have the same length and identical members at every
    index; the state is unchanged. *)
Theorem shallowEqual_arrays (s : state) (la lb : loc) (ea eb : list value) :
  heap s !! la = Some (HArray ea []) ->
  heap s !! lb = Some (HArray eb []) ->
  shallowEqual (VRef la) (VRef lb) s = (Ok (bool_decide (ea = eb)), s).
Proof. apply shallowEqual_arrays_run. Qed.

Lemma isLiteralNode_ref h l : isLiteralNode h (VRef l) = false.
Proof.
  unfold isLiteralNode. pose proof (literal_not_ref h l) as H.
  apply orb_false_iff in H as [-> ->]. reflexivity.
Qed.




(** X18.  When the next vnode is null or undefined, shouldNodeUpdate
    answers only if the previous vnode is a literal (by comparing the two);
    for every other previous vnode it throws the TypeError of reading type of
    null or undefined instead of reporting that the node changed. *)
Theorem shouldNodeUpdate_nullish_next (next prev : value) (s : state) :
  next = VNull \/ next = VUndefined ->
  shouldNodeUpdate next prev s =
  if isLiteralNode (heap s) prev then (Ok (bool_decide (prev <> next)), s)
  else (Throw (TypeError_read_of next "type"), s).
Proof.
  intros H. unfold shouldNodeUpdate. mnorm.
  destruct (isLiteralNode (heap s) prev); [reflexivity |].
  destruct H as [-> | ->]; reflexivity.
Qed.

Lemma shouldNodeUpdate_nullish_next_witness :
  shouldNodeUpdate VNull (VRef 0) (State [HObject [("type", VStr "div")]] [] [] [])
  = (Throw (TypeError_read_of VNull "type"),
     State [HObject [("type", VStr "div")]] [] [] []).
Proof.
  exact (shouldNodeUpdate_nullish_next VNull (VRef 0)
           (State [HObject [("type", VStr "div")]] [] [] []) (or_introl eq_refl)).
Defined.



Lemma shallowEqual_arrays_witness :
  let s := State [ HArray [VStr "a"; VRef 0] []; HArray [VStr "a"; VRef 0] [] ] [] [] [] in
  shallowEqual (VRef 0) (VRef 1) s = (Ok true, s).
Proof.
  intros s.
  apply (shallowEqual_arrays s 0 1 [VStr "a"; VRef 0] [VStr "a"; VRef 0]); reflexivity.
Defined.


(** ** bindListeners *)

Lemma assoc_get_NoDup k v (ps : props) :
  NoDup (map fst ps) -> In (k, v) ps -> assoc_get k ps = Some v.
Proof.
  induction ps as [| [k0 v0] ps IH]; intros Hn Hin; [contradiction |].
  cbn [map fst] in Hn. apply NoDup_cons in Hn as [Hk Hn].
  cbn [assoc_get]. destruct Hin as [[= -> ->] | Hin].
  - now rewrite String.eqb_refl.
  - destruct (String.eqb k k0) eqn:E; [| now apply IH].
    apply String.eqb_eq in E. subst. exfalso. apply Hk.
    apply list_elem_of_In. now apply (in_map fst _ (k0, v)).
Qed.

Lemma with_listeners_twice ls ls' n :
  with_listeners ls (with_listeners ls' n) = with_listeners ls n.
Proof. reflexivity. Qed.

Lemma add_loop (e L : loc) (own ps : props) (qs : props) :
  forall (s : state) (n : dom_node),
  heap s !! e = Some (HNode n own) ->
  heap s !! L = Some (HObject ps) ->
  (forall k v, In (k, v) qs -> assoc_get k ps = Some v /\ exists c : loc, v = VRef c) ->
  forEach (fun key => bind (get (VRef L) key) (fun v => addEventListener (VRef e) key v))
    (map fst qs) s
  = (Ok tt,
     State (<[e := HNode (with_listeners (fold_left add_listener qs (listeners n)) n) own]>
              (heap s))
       (window s) (console s)
       (ops s ++ map (fun kv => OpAddEventListener e kv.1 kv.2) qs)).
Proof.
  induction qs as [| [k v] qs IH]; intros s n He HL Hq.
  - cbn [map forEach fold_left]. rewrite app_nil_r.
    destruct s as [h w c o]. cbn [heap window console ops] in *.
    unfold ret. f_equal. f_equal.
    symmetry. apply list_insert_id.
    transitivity (Some (HNode n own)); [exact He | now destruct n].
  - cbn [map fst forEach].
    destruct (Hq k v (or_introl eq_refl)) as (Hg & c & ->).
    mstep (get_ref L k s). rewrite (read_object _ _ _ k HL), Hg. cbn [default]. unfold id.
    mstep (addEventListener_node s e n own k c He).
    match goal with |- forEach _ _ ?st = _ => set (s1 := st) end.
    assert (Hne : e <> L) by (intros ->; congruence).
    assert (He1 : heap s1 !! e = Some (HNode (with_listeners
                    (add_listener (listeners n) (k, VRef c)) n) own)).
    { unfold s1. cbn [heap add_op with_heap]. apply list_lookup_insert_eq.
      eapply lookup_lt_Some; eauto. }
    assert (HL1 : heap s1 !! L = Some (HObject ps)).
    { unfold s1. cbn [heap add_op with_heap]. now rewrite list_lookup_insert_ne. }
    rewrite (IH s1 _ He1 HL1) by (intros k' v' Hin; apply Hq; now right).
    unfold s1. cbn [heap window console ops add_op with_heap listeners with_listeners
                    fold_left map fst snd].
    rewrite list_insert_insert_eq, <- app_assoc. reflexivity.
Qed.

Lemma remove_loop (e L : loc) (own ps : props) (qs : props) :
  forall (s : state) (n : dom_node),
  heap s !! e = Some (HNode n own) ->
  heap s !! L = Some (HObject ps) ->
  (forall k v, In (k, v) qs -> assoc_get k ps = Some v /\ exists c : loc, v = VRef c) ->
  forEach (fun key => bind (get (VRef L) key) (fun v => removeEventListener (VRef e) key v))
    (map fst qs) s
  = (Ok tt,
     State (<[e := HNode (with_listeners
                            (List.filter (fun x => negb (bound qs x)) (listeners n)) n) own]>
              (heap s))
       (window s) (console s)
       (ops s ++ map (fun kv => OpRemoveEventListener e kv.1 kv.2) qs)).
Proof.
  induction qs as [| [k v] qs IH]; intros s n He HL Hq.
  - cbn [map forEach]. rewrite app_nil_r.
    destruct s as [h w c o]. cbn [heap window console ops] in *.
    unfold ret. f_equal. f_equal.
    symmetry. apply list_insert_id.
    transitivity (Some (HNode n own)); [exact He |].
    destruct n as [kd at' ls cs].
    unfold with_listeners, bound. cbn [listeners kind attributes childNodes existsb negb].
    do 3 f_equal. clear He. induction ls as [| x ls IHl]; [reflexivity |].
    simpl. now f_equal.
  - cbn [map fst forEach].
    destruct (Hq k v (or_introl eq_refl)) as (Hg & c & ->).
    mstep (get_ref L k s). rewrite (read_object _ _ _ k HL), Hg. cbn [default]. unfold id.
    mstep (removeEventListener_node s e n own k c He).
    match goal with |- forEach _ _ ?st = _ => set (s1 := st) end.
    assert (Hne : e <> L) by (intros ->; congruence).
    assert (He1 : heap s1 !! e = Some (HNode (with_listeners
                    (List.filter (fun x => negb (same_listener k (VRef c) x))
                       (listeners n)) n) own)).
    { unfold s1. cbn [heap add_op with_heap]. apply list_lookup_insert_eq.
      eapply lookup_lt_Some; eauto. }
    assert (HL1 : heap s1 !! L = Some (HObject ps)).
    { unfold s1. cbn [heap add_op with_heap]. now rewrite list_lookup_insert_ne. }
    rewrite (IH s1 _ He1 HL1) by (intros k' v' Hin; apply Hq; now right).
    unfold s1. cbn [heap window console ops add_op with_heap map fst snd].
    rewrite list_insert_insert_eq, <- app_assoc.
    change (listeners (with_listeners ?l _)) with l.
    rewrite with_listeners_twice, filter_filter.
    rewrite (List.filter_ext _ (fun x => negb (bound ((k, VRef c) :: qs) x))); [reflexivity |].
    intros x. unfold bound. cbn [existsb fst snd]. now rewrite negb_orb.
Qed.

Lemma filter_added (ps qs : props) (ls : list (string * value)) :
  (forall kv, In kv qs -> In kv ps) ->
  List.filter (fun x => negb (bound ps x)) (fold_left add_listener qs ls)
  = List.filter (fun x => negb (bound ps x)) ls.
Proof.
  revert ls. induction qs as [| kv qs IH]; intros ls Hsub; [reflexivity |].
  cbn [fold_left]. rewrite IH by (intros x Hx; apply Hsub; now right).
  unfold add_listener. destruct (existsb _ ls); [reflexivity |].
  rewrite List.filter_app. cbn [List.filter].
  assert (Hb : bound ps kv = true).
  { unfold bound. apply existsb_exists. exists kv. split; [apply Hsub; now left |].
    unfold same_listener. rewrite String.eqb_refl. now rewrite bool_decide_true. }
  rewrite Hb. cbn [negb]. apply app_nil_r.
Qed.

(** X20.  Binding the listeners of an object whose values are callbacks
    and then calling the function that bindListeners returned leaves on the
    node exactly the listeners it had before, minus those that the object
    also registers; each listener is added once and then removed once, in
    key order, and nothing else changes. *)
Theorem bindListeners_round_trip (s : state) (e L : loc) (n : dom_node)
    (own ps : props) :
  heap s !! e = Some (HNode n own) ->
  heap s !! L = Some (HObject ps) ->
  NoDup (map fst ps) -> callbacks ps ->
  bind (bindListeners (VRef e) (VRef L)) (fun unbind => unbind) s
  = (Ok tt,
     State (<[e := HNode (with_listeners
                            (List.filter (fun x => negb (bound ps x)) (listeners n)) n) own]>
              (heap s))
       (window s) (console s)
       (ops s ++ map (fun kv => OpAddEventListener e kv.1 kv.2) ps
              ++ map (fun kv => OpRemoveEventListener e kv.1 kv.2) ps)).
Proof.
  intros He HL Hn Hc.
  assert (Hq : forall k v, In (k, v) ps ->
                 assoc_get k ps = Some v /\ exists c : loc, v = VRef c).
  { intros k v Hin. split; [now apply assoc_get_NoDup |].
    unfold callbacks in Hc. rewrite Forall_forall in Hc.
    apply (Hc (k, v)). now apply list_elem_of_In. }
  unfold bindListeners. rewrite bool_decide_false by discriminate. mnorm.
  assert (Hk : object_keys (VRef L) s = (Ok (map fst ps), s)).
  { unfold object_keys. now rewrite (keys_of_object _ _ _ HL). }
  mstep Hk. mstep (add_loop e L own ps ps s n He HL Hq).
  match goal with |- bind _ _ ?st = _ => set (s1 := st) end.
  assert (Hne : e <> L) by (intros ->; congruence).
  assert (He1 : heap s1 !! e = Some (HNode (with_listeners
                  (fold_left add_listener ps (listeners n)) n) own)).
  { unfold s1. cbn [heap]. apply list_lookup_insert_eq. eapply lookup_lt_Some; eauto. }
  assert (HL1 : heap s1 !! L = Some (HObject ps)).
  { unfold s1. cbn [heap]. now rewrite list_lookup_insert_ne. }
  assert (Hk1 : object_keys (VRef L) s1 = (Ok (map fst ps), s1)).
  { unfold object_keys. now rewrite (keys_of_object _ _ _ HL1). }
  mstep Hk1. rewrite (remove_loop e L own ps ps s1 _ He1 HL1 Hq).
  unfold s1. cbn [heap window console ops listeners with_listeners].
  rewrite list_insert_insert_eq, <- app_assoc, filter_added by auto.
  reflexivity.
Qed.

(** X21.  bindListeners without a listeners argument allocates an empty
    object and touches nothing else, whatever the element is (it is never
    inspected), and the function it returns does nothing; with null as the
    listeners it throws the TypeError of Object.keys. *)
Theorem bindListeners_no_listeners (el : value) (s : state) :
  (exists unbind,
     bindListeners el VUndefined s = (Ok unbind, with_heap (heap s ++ [HObject []]) s)
     /\ forall s', heap s' !! (length (heap s) : loc) = Some (HObject []) ->
                   unbind s' = (Ok tt, s'))
  /\ bindListeners el VNull s = (Throw (TypeError_argument "Object.keys"), s).
Proof.
  split; [| reflexivity].
  exists (bind (object_keys (VRef (length (heap s))))
            (fun keys => forEach (fun key =>
                 bind (get (VRef (length (heap s))) key)
                   (fun v => removeEventListener el key v)) keys)).
  split.
  - unfold bindListeners. rewrite bool_decide_true by reflexivity.
    unfold alloc, object_keys, bind, ret, keys_of, spread.
    cbn [heap with_heap]. rewrite lookup_alloc. cbn [own_of map forEach]. reflexivity.
  - intros s' H.
    assert (Hk : object_keys (VRef (length (heap s))) s' = (Ok [], s')).
    { unfold object_keys. now rewrite (keys_of_object _ _ _ H). }
    now rewrite (bind_ok _ _ _ _ _ Hk).
Qed.

Lemma bindListeners_round_trip_witness :
  let n := DomNode (NElement "button") [] [("click", VRef 2)] [] in
  let ps := [("click", VRef 3); ("keyup", VRef 2)] in
  let s := State [ HNode n []; HObject ps;
                   HFunction 0 "f" "f" []; HFunction 1 "g" "g" [] ] [] [] [] in
  bind (bindListeners (VRef 0) (VRef 1)) (fun unbind => unbind) s
  = (Ok tt,
     State (<[(0 : loc) := HNode (with_listeners
                            (List.filter (fun x => negb (bound ps x)) (listeners n)) n) []]>
              (heap s))
       (window s) (console s)
       (ops s ++ map (fun kv => OpAddEventListener 0 kv.1 kv.2) ps
              ++ map (fun kv => OpRemoveEventListener 0 kv.1 kv.2) ps)).
Proof.
  intros n ps s.
  apply (bindListeners_round_trip s 0 1 n [] ps);
    first [ reflexivity
          | apply (bool_decide_unpack _); vm_compute; exact I
          | repeat (constructor; [eexists; reflexivity |]); constructor ].
Defined.

(** ** The markup of an element *)

Lemma mapM_pure {A B} (f : A -> M B) (g : A -> B) (xs : list A) s :
  (forall x, In x xs -> f x s = (Ok (g x), s)) ->
  mapM f xs s = (Ok (map g xs), s).
Proof.
  induction xs as [| x xs IH]; intros H; [reflexivity |].
  cbn [mapM map]. rewrite (bind_ok _ _ _ _ _ (H x (or_introl eq_refl))).
  rewrite (bind_ok _ _ _ _ _ (IH (fun y Hy => H y (or_intror Hy)))). reflexivity.
Qed.

Lemma to_string_str h t : to_string h (VStr t) = t.
Proof. reflexivity. Qed.

Lemma join_strings h sep (ts : list string) :
  join h sep (map VStr ts) = String.concat sep ts.
Proof. unfold join. rewrite map_map. f_equal. now rewrite map_id. Qed.

Lemma filter_keys (f : string -> bool) (ps : props) :
  List.filter f (map fst ps) = map fst (List.filter (fun kv => f kv.1) ps).
Proof.
  induction ps as [| [k v] ps IH]; [reflexivity |].
  cbn [map fst List.filter]. destruct (f k); cbn [map fst]; now rewrite IH.
Qed.

Section Markup.
Variable app : fid -> list value -> list hobj -> outcome value * list hobj.
Variable fn : value.

Lemma renderString_literal (fuel : nat) (c : value) (s : state) :
  isLiteralNode (heap s) c = true ->
  renderString app fn (S fuel) c s
  = (Ok (if isEmptyNode (heap s) c then VStr "" else c), s).
Proof.
  intros H. cbn [renderString]. mnorm.
  destruct c as [| | b | z | t | l]; try reflexivity.
  now rewrite isLiteralNode_ref in H.
Qed.

(** X22.  renderString of an element whose props are null or a plain
    object and whose children are literals returns, without changing the
    state, the opening tag with the attributes [key="value"] of all props
    that are not event listeners (separated by spaces, values not escaped;
    no space when there is none), the children joined by newlines (Empty
    children contribute the empty string), and the closing tag. *)
Theorem renderString_element (fuel : nat) (s : state) (l cl : loc) (fs ps own : props)
    (tag : string) (p : value) (cs : list value) :
  heap s !! l = Some (HObject fs) ->
  assoc_get "type" fs = Some (VStr tag) ->
  assoc_get "props" fs = Some p ->
  (p = VNull /\ ps = []) \/ (exists pl : loc, p = VRef pl /\ heap s !! pl = Some (HObject ps)) ->
  NoDup (map fst ps) ->
  assoc_get "children" fs = Some (VRef cl) ->
  heap s !! cl = Some (HArray cs own) ->
  Forall (fun c => isLiteralNode (heap s) c = true) cs ->
  renderString app fn (S (S fuel)) (VRef l) s
  = (Ok (VStr (element_markup tag
                 (String.concat " "
                    (map (attribute (heap s))
                       (List.filter (fun kv => negb (isEventListener kv.1)) ps)))
                 (String.concat newline (map (text_of (heap s)) cs)))), s).
Proof.
  intros Hl Hty Hp Hps Hn Hc Hcl Hcs.
  assert (Rt : read (heap s) (VRef l) "type" = VStr tag)
    by now rewrite (read_object _ _ _ _ Hl), Hty.
  assert (Rp : read (heap s) (VRef l) "props" = p)
    by now rewrite (read_object _ _ _ _ Hl), Hp.
  assert (Rc : read (heap s) (VRef l) "children" = VRef cl)
    by now rewrite (read_object _ _ _ _ Hl), Hc.
  assert (Hk : keys_of (heap s) p = map fst ps).
  { destruct Hps as [[-> ->] | (pl & -> & Hpl)]; [reflexivity |].
    now apply keys_of_object. }
  assert (Hr : forall k v, In (k, v) ps -> get p k s = (Ok v, s)).
  { intros k v Hin. destruct Hps as [[-> ->] | (pl & -> & Hpl)]; [contradiction |].
    rewrite get_ref, (read_object _ _ _ _ Hpl), (assoc_get_NoDup _ _ _ Hn Hin).
    reflexivity. }
  cbn [renderString]. mnorm.
  assert (Hto : typeof (heap s) (VRef l) = "object") by (unfold typeof; now rewrite Hl).
  rewrite Hto. change ("object" =? "function") with false. cbv iota. mnorm.
  destruct (proj1 (orb_false_iff _ _) (literal_not_ref (heap s) l)) as [-> ->].
  unfold isFragmentNode, isArray. rewrite Hl.
  unfold isFunctionalComponentNode. cbn [truthy]. rewrite Rt.
  cbn [typeof String.eqb Ascii.eqb Bool.eqb truthy].
  mstep (get_ref l "props" s). rewrite Rp, Hk, filter_keys.
  match goal with |- context [mapM ?f ?xs] =>
    assert (Hm : mapM f xs s
                 = (Ok (map (fun k => VStr (attribute (heap s)
                                              (k, default VUndefined (assoc_get k ps))))
                          xs), s))
  end.
  { apply mapM_pure. intros k Hin. apply in_map_iff in Hin as ([k' v] & <- & Hin).
       apply filter_In in Hin as [Hin _]. cbn [fst].
       mstep (get_ref l "props" s). rewrite Rp. mstep (Hr k' v Hin). mnorm.
       now rewrite (assoc_get_NoDup _ _ _ Hn Hin). }
  mstep Hm. clear Hm.
  mstep (get_ref l "children" s). rewrite Rc.
  assert (Har : array_receiver "map" (VRef cl) s = (Ok cs, s)).
  { unfold array_receiver, isArray, elems_of. now rewrite Hcl. }
  mstep Har.
  assert (Hm : mapM (renderString app fn (S fuel)) cs s
               = (Ok (map (fun c => if isEmptyNode (heap s) c then VStr "" else c) cs), s)).
  { apply mapM_pure. intros c Hin. apply renderString_literal.
    rewrite Forall_forall in Hcs. apply Hcs. now apply list_elem_of_In. }
  mstep Hm. clear Hm. mstep (get_ref l "type" s). rewrite Rt, to_string_str.
  unfold ret, element_markup.
  assert (Ja : join (heap s) " "
                 (map (fun k => VStr (attribute (heap s)
                                        (k, default VUndefined (assoc_get k ps))))
                    (map fst (List.filter (fun kv => negb (isEventListener kv.1)) ps)))
               = String.concat " "
                   (map (attribute (heap s))
                      (List.filter (fun kv => negb (isEventListener kv.1)) ps))).
  { rewrite <- (join_strings (heap s)). f_equal. rewrite !map_map.
    apply map_ext_in. intros [k v] Hin. apply filter_In in Hin as [Hin _].
    cbn [fst]. now rewrite (assoc_get_NoDup _ _ _ Hn Hin). }
  assert (Jc : join (heap s) newline
                 (map (fun c => if isEmptyNode (heap s) c then VStr "" else c) cs)
               = String.concat newline (map (text_of (heap s)) cs)).
  { unfold join. rewrite map_map. f_equal. apply map_ext. intros c.
    unfold text_of. destruct (isEmptyNode (heap s) c) eqn:E; [reflexivity |].
    destruct c; try reflexivity; discriminate. }
  rewrite Ja, Jc. now destruct (negb _).
Qed.

End Markup.

Lemma renderString_element_witness :
  let s := State [ HObject [("id", VStr "x"); ("onClick", VRef 4)];
                   HArray [VStr "a"; VBool false; VNum 1] [];
                   HObject [("type", VStr "p"); ("props", VRef 0); ("children", VRef 1)] ]
             [] [] [] in
  renderString app_none VUndefined 2 (VRef 2) s
  = (Ok (VStr (element_markup "p"
                 (String.concat " "
                    (map (attribute (heap s))
                       (List.filter (fun kv => negb (isEventListener kv.1))
                          [("id", VStr "x"); ("onClick", VRef 4)])))
                 (String.concat newline
                    (map (text_of (heap s)) [VStr "a"; VBool false; VNum 1])))), s).
Proof.
  intros s.
  apply (renderString_element app_none VUndefined 0 s 2 1
           [("type", VStr "p"); ("props", VRef 0); ("children", VRef 1)]
           [("id", VStr "x"); ("onClick", VRef 4)] [] "p" (VRef 0)
           [VStr "a"; VBool false; VNum 1]);
    first [ reflexivity
          | apply (bool_decide_unpack _); vm_compute; exact I
          | right; exists 0; split; reflexivity
          | repeat constructor ].
Defined.

(** ** computeChildKeyMap *)

Lemma index_of_key_props (n : nat) : index_of_key "props" n = None.
Proof.
  unfold index_of_key. generalize 0.
  induction n as [| n IH]; intros k; cbn [seq List.find]; [reflexivity |].
  assert (H : String.eqb "props" (nat_str k) = false).
  { unfold nat_str. destruct (Nat.to_uint k); reflexivity. }
  rewrite H. apply IH.
Qed.

Lemma computeKey_literal h c i :
  isLiteralNode h c = true ->
  computeKey h c i = VStr (positional_key h (i, c)).
Proof.
  intros H. unfold computeKey, positional_key. cbn [fst snd].
  destruct c as [| | b | z | t | l].
  - reflexivity.
  - reflexivity.
  - destruct b; reflexivity.
  - destruct z; reflexivity.
  - destruct t as [| a t]; [reflexivity |].
    assert (Hp : read h (VStr (String a t)) "props" = VUndefined).
    { unfold read. cbn [String.eqb Ascii.eqb Bool.eqb]. now rewrite index_of_key_props. }
    change (truthy (VStr (String a t))) with true. cbv iota.
    rewrite Hp. cbn [truthy]. cbv iota. rewrite read_string_type. reflexivity.
  - now rewrite isLiteralNode_ref in H.
Qed.

Lemma positional_key_inj h c c' i j :
  isLiteralNode h c = true -> isLiteralNode h c' = true ->
  positional_key h (i, c) = positional_key h (j, c') -> i = j.
Proof.
  intros Hc Hc' H. unfold positional_key in H. cbn [fst snd] in H.
  destruct c as [| | b | z | t | l]; [| | | | | now rewrite isLiteralNode_ref in Hc];
  (destruct c' as [| | b' | z' | t' | l']; [| | | | | now rewrite isLiteralNode_ref in Hc']);
  cbn [typeof String.append] in H;
  solve [ discriminate H | injection H as H; now apply nat_str_inj ].
Qed.

Lemma assoc_set_fresh k v (ps : props) :
  ~ In k (map fst ps) -> assoc_set k v ps = ps ++ [(k, v)].
Proof.
  induction ps as [| [k0 v0] ps IH]; intros H; [reflexivity |].
  cbn [assoc_set]. destruct (String.eqb k k0) eqn:E.
  - apply String.eqb_eq in E. subst. exfalso. apply H. now left.
  - cbn [app]. f_equal. apply IH. intros Hin. apply H. now right.
Qed.

Lemma memo_loop (m : loc) (cs : list value) :
  forall (a : nat) (acc : list (nat * value)) (s : state),
  heap s !! m = Some (HObject (map (fun ic => (positional_key (heap s) ic, ic.2)) acc)) ->
  Forall (fun c => isLiteralNode (heap s) c = true) cs ->
  Forall (fun ic => ic.1 < a /\ isLiteralNode (heap s) ic.2 = true) acc ->
  forEach (fun ic =>
      bind get_heap (fun h => set (VRef m) (to_string h (computeKey h ic.2 ic.1)) ic.2))
    (combine (seq a (length cs)) cs) s
  = (Ok tt,
     with_heap (<[m := HObject (map (fun ic => (positional_key (heap s) ic, ic.2))
                                  (acc ++ combine (seq a (length cs)) cs))]> (heap s)) s).
Proof.
  induction cs as [| c cs IH]; intros a acc s Hm Hcs Hacc.
  - cbn [length seq combine forEach]. rewrite app_nil_r.
    unfold ret. f_equal. destruct s as [h w co o]. unfold with_heap.
    cbn [heap window console ops] in *. f_equal. symmetry. now apply list_insert_id.
  - cbn [length seq combine forEach]. mnorm. cbn [fst snd].
    apply Forall_cons in Hcs as [Hc Hcs].
    rewrite (computeKey_literal _ _ a Hc), to_string_str.
    mstep (set_ref m _ (positional_key (heap s) (a, c)) c s Hm).
    cbn [set_own].
    rewrite assoc_set_fresh.
    2: { rewrite map_map. cbn [fst]. intros Hin. apply in_map_iff in Hin as ([j c'] & E & Hin).
         rewrite Forall_forall in Hacc.
         destruct (Hacc (j, c') ltac:(now apply list_elem_of_In)) as [Hj Hl].
         cbn [fst snd] in *. apply positional_key_inj in E; [lia | assumption | assumption]. }
    match goal with |- forEach _ _ ?st = _ => set (s1 := st) end.
    assert (Hty : forall ic : nat * value,
              isLiteralNode (heap s) ic.2 = true ->
              positional_key (heap s1) ic = positional_key (heap s) ic).
    { intros [j [| | b | z | t | l]] Hl; try reflexivity.
      cbn [snd] in Hl. now rewrite isLiteralNode_ref in Hl. }
    assert (Hlit : forall x, isLiteralNode (heap s) x = true ->
                             isLiteralNode (heap s1) x = true).
    { intros [| | b | z | t | l] Hl; try reflexivity.
      now rewrite isLiteralNode_ref in Hl. }
    assert (Hmap : forall xs : list (nat * value),
              Forall (fun ic => isLiteralNode (heap s) ic.2 = true) xs ->
              map (fun ic => (positional_key (heap s1) ic, ic.2)) xs
              = map (fun ic => (positional_key (heap s) ic, ic.2)) xs).
    { intros xs Hx. apply map_ext_in. intros ic Hin. rewrite Forall_forall in Hx.
      rewrite Hty; [reflexivity |]. apply Hx. now apply list_elem_of_In. }
    assert (Hacc' : Forall (fun ic : nat * value => isLiteralNode (heap s) ic.2 = true)
                      (acc ++ [(a, c)])).
    { apply Forall_app. split.
      - eapply Forall_impl; [exact Hacc |]. now intros ic [_ H].
      - now repeat constructor. }
    rewrite (IH (S a) (acc ++ [(a, c)]) s1).
    + unfold s1. cbn [heap with_heap].
      rewrite list_insert_insert_eq, <- app_assoc. cbn [app].
      fold s1. unfold with_heap. cbn [window console ops].
      f_equal. f_equal. f_equal. f_equal.
      fold (with_heap (<[m := HObject
         (map (fun ic => (positional_key (heap s) ic, ic.2)) acc ++
          [(positional_key (heap s) (a, c), c)])]> (heap s)) s).
      fold s1. apply Hmap.
      apply Forall_app. split; [eapply Forall_impl; [exact Hacc |]; now intros ic [_ H] |].
      constructor; [exact Hc |].
      clear - Hcs. revert Hcs. generalize (S a).
      induction cs as [| x xs IHx]; intros n Hcs; [constructor |].
      apply Forall_cons in Hcs as [Hx Hcs]. cbn [length seq combine].
      constructor; [exact Hx | now apply IHx].
    + rewrite (Hmap _ Hacc'). unfold s1. cbn [heap with_heap].
      rewrite map_app. cbn [map snd]. apply list_lookup_insert_eq.
      eapply lookup_lt_Some; eauto.
    + eapply Forall_impl; [exact Hcs |]. intros x. apply Hlit.
    + apply Forall_app. split.
      * eapply Forall_impl; [exact Hacc |]. intros ic [H1 H2]. split; [lia | now apply Hlit].
      * constructor; [split; [cbn; lia | now apply Hlit] | constructor].
Qed.

Lemma insert_new (h : list hobj) (o o' : hobj) :
  <[(length h : loc) := o']> (h ++ [o]) = h ++ [o'].
Proof.
  induction h as [| x h IH]; [reflexivity |]. cbn [length app].
  change (x :: (<[(length h : loc) := o']> (h ++ [o])) = x :: (h ++ [o'])). now rewrite IH.
Qed.

(** X23.  For an array of literal children computeChildKeyMap returns a
    new object with exactly one entry per child, in order: the child at
    index i is stored under the key [__react__.<typeof child>-i]; these
    positional keys never collide, and nothing else is changed. *)
Theorem computeChildKeyMap_literals (s : state) (l : loc) (cs : list value) (own : props) :
  heap s !! l = Some (HArray cs own) ->
  Forall (fun c => isLiteralNode (heap s) c = true) cs ->
  computeChildKeyMap (VRef l) s
  = (Ok (VRef (length (heap s))),
     with_heap (heap s ++ [HObject (map (fun ic => (positional_key (heap s) ic, ic.2))
                                      (combine (seq 0 (length cs)) cs))]) s).
Proof.
  intros Hl Hcs. unfold computeChildKeyMap.
  set (s1 := with_heap (heap s ++ [HObject []]) s).
  assert (Ha : alloc (HObject []) s = (Ok (VRef (length (heap s))), s1)) by reflexivity.
  mstep Ha.
  assert (Hl1 : heap s1 !! l = Some (HArray cs own)).
  { unfold s1. cbn [heap with_heap]. now apply lookup_ext. }
  assert (Hr : array_receiver "reduce" (VRef l) s1 = (Ok cs, s1)).
  { unfold array_receiver, isArray, elems_of. now rewrite Hl1. }
  mstep Hr.
  assert (Hlit : forall x, isLiteralNode (heap s) x = true ->
                           isLiteralNode (heap s1) x = true).
  { intros [| | b | z | t | k] H; try reflexivity. now rewrite isLiteralNode_ref in H. }
  assert (Hm : heap s1 !! (length (heap s) : loc)
               = Some (HObject (map (fun ic => (positional_key (heap s1) ic, ic.2)) []))).
  { unfold s1. cbn [heap with_heap map]. apply lookup_alloc. }
  assert (Hcs1 : Forall (fun c => isLiteralNode (heap s1) c = true) cs).
  { eapply Forall_impl; [exact Hcs |]. exact Hlit. }
  mstep (memo_loop (length (heap s)) cs 0 [] s1 Hm Hcs1 (List.Forall_nil _)).
  unfold ret. f_equal. cbn [app]. unfold s1. cbn [heap with_heap].
  rewrite insert_new. unfold with_heap. cbn [window console ops]. do 4 f_equal.
  apply map_ext_in. intros [j c] Hin. f_equal.
  apply in_combine_r in Hin. rewrite Forall_forall in Hcs.
  specialize (Hcs c ltac:(now apply list_elem_of_In)).
  destruct c as [| | b | z | t | k]; try reflexivity. now rewrite isLiteralNode_ref in Hcs.
Qed.

Lemma computeChildKeyMap_literals_witness :
  let s := State [HArray [VStr "a"; VNull; VNum 7] []] [] [] [] in
  computeChildKeyMap (VRef 0) s
  = (Ok (VRef 1),
     with_heap (heap s ++ [HObject (map (fun ic => (positional_key (heap s) ic, ic.2))
                                      (combine (seq 0 3) [VStr "a"; VNull; VNum 7]))]) s).
Proof.
  intros s.
  apply (computeChildKeyMap_literals s 0 [VStr "a"; VNull; VNum 7] []);
    first [reflexivity | repeat constructor].
Defined.

(** ** The nodes of an element with Text children *)





Section FlatElement.
Variable app : fid -> list value -> list hobj -> outcome value * list hobj.





End FlatElement.

